(** * sinco: the headless-browser session (src/headless_browser.ts)

    A shallow embedding of the [HeadlessBrowser] class: the session
    record, the deferred results it hands out, the socket handlers
    installed by [start], [sendWebSocketMessage], the command facade
    ([click], [getInputValue], [type], [waitForAjax],
    [checkForErrorResult]) and [done]; further down, the constructor's
    choice of the executable ([existsSync]), the busy-wait [sleep] and
    the endpoint loop of [start].

    Conventions of the embedding.
    - A JavaScript object that is shared and mutated (a deferred
      promise) lives in a store, [heap]; the class and its callers hold
      addresses into it.
    - An [async] method is cut at its [await]s: each piece between two
      awaits is one computation in the state-and-exception monad [M];
      what the method is suspended on is returned as data.
    - Calls on the collaborators of the class (socket, subprocess,
      console, the busy-wait [sleep]) are recorded, in program order, in
      the [trace] of the session.
    - The TypeScript interfaces are taken at their word: a value cast
      with [as DOMOutput] has the declared fields.
    - [next_message_id] is a JavaScript number that starts at 1 and only
      moves by [++]; it is an exact integer far beyond any number of
      sends a session can make and is modelled in [Z]. *)

From Stdlib Require Import ZArith String Ascii List Bool Lia Sorted.
From stdpp Require Import base option list gmap strings sorting.

Open Scope Z_scope.

(** ** JavaScript strings *)

Module JsString.

(** The double quote character, for the template literals that embed
    one. *)
Definition dquote : string := String (ascii_of_nat 34) EmptyString.

(** [s.indexOf(pat)]: the position of the first occurrence, or -1. *)
Definition indexOf (s pat : string) : Z :=
  match String.index 0 pat s with
  | Some i => Z.of_nat i
  | None => -1
  end.

(** [s.replace(pat, rep)] for a string pattern: the first occurrence of
    [pat] is replaced, the rest of [s] is kept; [s] is returned as it is
    when [pat] does not occur. ([rep] holds no dollar pattern in this
    program.) *)
Definition replace (s pat rep : string) : string :=
  match String.index 0 pat s with
  | Some i =>
      String.substring 0 i s +:+ rep +:+
      String.substring (i + String.length pat)
                       (String.length s - (i + String.length pat)) s
  | None => s
  end.

(** Truthiness of a string: every string but the empty one. *)
Definition truthy (s : string) : bool := negb (String.eqb s "").

End JsString.

(** ** Data carried by the protocol *)

(** Values of type [unknown] that the session passes along without
    looking inside (the values of [params]). *)
#[warnings="-register-all"]
Inductive json : Type :=
  | JNull
  | JBool (b : bool)
  | JNum (n : Z)
  | JStr (s : string)
  | JArr (items : list json)
  | JObj (fields : list (string * json)).

(** The object handed to [JSON.stringify] before [socket.send]:
    [{id, method, params?}]. *)
Record Frame : Type := mkFrame {
  frame_id : Z;
  frame_method : string;
  frame_params : option (list (string * json))
}.

(** [ExceptionDetails.exception]. *)
Record ExceptionInfo : Type := mkExceptionInfo {
  exc_className : string;
  exc_description : string;
  exc_objectId : string;
  exc_subtype : string;
  exc_type : string
}.

Record ExceptionDetails : Type := mkExceptionDetails {
  columnNumber : Z;
  exception : ExceptionInfo;
  exceptionId : Z;
  lineNumber : Z;
  scriptId : string;
  text : string
}.

Record ErrorResult : Type := mkErrorResult {
  err_className : string;
  err_description : string;
  err_objectId : Z * Z;
  err_subtype : string;
  err_type : string
}.

Record SuccessResult : Type := mkSuccessResult {
  value : option string;
  suc_type : string;
  suc_className : string;
  suc_description : string;
  suc_objectId : string
}.

Record UndefinedResult : Type := mkUndefinedResult {
  und_type : string
}.

(** [SuccessResult | ErrorResult | UndefinedResult]. *)
Inductive ResultUnion : Type :=
  | IsSuccess (r : SuccessResult)
  | IsError (r : ErrorResult)
  | IsUndefined (r : UndefinedResult).

(** [.type], a field of the three variants. *)
Definition type_of (r : ResultUnion) : string :=
  match r with
  | IsSuccess r => suc_type r
  | IsError r => err_type r
  | IsUndefined r => und_type r
  end.

(** [(r as SuccessResult).value]: the field is read whatever the variant
    is, and is undefined where the variant has none. *)
Definition value_of (r : ResultUnion) : option string :=
  match r with
  | IsSuccess r => value r
  | IsError _ | IsUndefined _ => None
  end.

Record DOMOutput : Type := mkDOMOutput {
  result : ResultUnion;
  exceptionDetails : option ExceptionDetails
}.

(** ** Values, deferreds, exceptions *)

Section Session.

(** [R]: what a response carries under [result]; [E]: what it carries
    under [error]. The session never looks inside either. *)
Context {R E : Type}.

(** What an awaited [sendWebSocketMessage] evaluates to. *)
Inductive Value : Type :=
  | Undefined
  | Payload (r : R).

(** The state of a promise made by [deferred()]. *)
Inductive Deferred : Type :=
  | Pending
  | Resolved (v : Value)
  | Rejected (e : E).

Inductive Exn : Type :=
  | TypeError (msg : string)
  | SyntaxError (msg : string)
  | Error (msg : string)
  | Rejection (e : E).

Inductive Outcome (A : Type) : Type :=
  | Ok (a : A)
  | Throw (e : Exn).
Global Arguments Ok {A} a.
Global Arguments Throw {A} e.

(** An inbound frame after [JSON.parse]: the fields of
    [MessageResponse | NotificationResponse], each present or not. *)
Record Message : Type := mkMessage {
  msg_method : option string;
  msg_params : option json;
  msg_id : option Z;
  msg_result : option R;
  msg_error : option E
}.

(** Calls made on the collaborators, and the write of the shutdown
    flag, in program order. *)
Inductive Action : Type :=
  | AConsoleLog (line : string)
  | AConsoleError
  | ANewWebSocket (url : string)
  | ASocketSend (f : Frame)
  | ASocketAddCloseListener (promise : nat)
  | ASocketClose
  | ASleep (ms : Z)
  | AMarkDone
  | AStderrClose
  | AProcessClose.

(** The socket object: its endpoint and the promises that its [close]
    listeners resolve. *)
Record WebSocket : Type := mkWebSocket {
  ws_url : string;
  ws_close_listeners : list nat
}.

(** ** The session *)

Record HeadlessBrowser : Type := mkHeadlessBrowser {
  socket : option WebSocket;
  debug_url : option string;
  next_message_id : Z;
  connected : bool;
  connecting : bool;
  is_done : bool;
  resolvables : gmap Z nat;
  heap : list Deferred;
  trace : list Action
}.

(** The field initialisers of the class. *)
Definition init : HeadlessBrowser :=
  {| socket := None;
     debug_url := None;
     next_message_id := 1;
     connected := false;
     connecting := false;
     is_done := false;
     resolvables := ∅;
     heap := [];
     trace := [] |}.

Definition set_socket (w : option WebSocket) (s : HeadlessBrowser) :=
  mkHeadlessBrowser w (debug_url s) (next_message_id s) (connected s)
    (connecting s) (is_done s) (resolvables s) (heap s) (trace s).
Definition set_debug_url (u : option string) (s : HeadlessBrowser) :=
  mkHeadlessBrowser (socket s) u (next_message_id s) (connected s)
    (connecting s) (is_done s) (resolvables s) (heap s) (trace s).
Definition set_next_message_id (n : Z) (s : HeadlessBrowser) :=
  mkHeadlessBrowser (socket s) (debug_url s) n (connected s)
    (connecting s) (is_done s) (resolvables s) (heap s) (trace s).
Definition set_connected (b : bool) (s : HeadlessBrowser) :=
  mkHeadlessBrowser (socket s) (debug_url s) (next_message_id s) b
    (connecting s) (is_done s) (resolvables s) (heap s) (trace s).
Definition set_connecting (b : bool) (s : HeadlessBrowser) :=
  mkHeadlessBrowser (socket s) (debug_url s) (next_message_id s)
    (connected s) b (is_done s) (resolvables s) (heap s) (trace s).
Definition set_is_done (b : bool) (s : HeadlessBrowser) :=
  mkHeadlessBrowser (socket s) (debug_url s) (next_message_id s)
    (connected s) (connecting s) b (resolvables s) (heap s) (trace s).
Definition set_resolvables (m : gmap Z nat) (s : HeadlessBrowser) :=
  mkHeadlessBrowser (socket s) (debug_url s) (next_message_id s)
    (connected s) (connecting s) (is_done s) m (heap s) (trace s).
Definition set_heap (h : list Deferred) (s : HeadlessBrowser) :=
  mkHeadlessBrowser (socket s) (debug_url s) (next_message_id s)
    (connected s) (connecting s) (is_done s) (resolvables s) h (trace s).
Definition set_trace (t : list Action) (s : HeadlessBrowser) :=
  mkHeadlessBrowser (socket s) (debug_url s) (next_message_id s)
    (connected s) (connecting s) (is_done s) (resolvables s) (heap s) t.

(** ** The monad of synchronous code

    A piece of code between two awaits reads and writes the session and
    may throw; what it wrote before throwing stays written. *)

Definition M (A : Type) : Type :=
  HeadlessBrowser → Outcome A * HeadlessBrowser.

Definition ret {A} (a : A) : M A := λ s, (Ok a, s).
Definition throw {A} (e : Exn) : M A := λ s, (Throw e, s).
Definition bind {A B} (m : M A) (k : A → M B) : M B :=
  λ s, match m s with
       | (Ok a, s') => k a s'
       | (Throw e, s') => (Throw e, s')
       end.
Definition gets {A} (f : HeadlessBrowser → A) : M A := λ s, (Ok (f s), s).
Definition modify (f : HeadlessBrowser → HeadlessBrowser) : M unit :=
  λ s, (Ok tt, f s).

Global Instance M_ret : MRet M := @ret.
Global Instance M_bind : MBind M := λ A B k m, bind m k.

(** ** Primitive operations *)

Definition log (a : Action) : M unit :=
  modify (λ s, set_trace (trace s ++ [a]) s).

(** [sleep(ms)], the busy-wait helper: it blocks, nothing else runs. *)
Definition sleep (ms : Z) : M unit := log (ASleep ms).

(** [deferred()]: a fresh pending promise; its address is returned. *)
Definition deferred : M nat :=
  λ s, (Ok (length (heap s)), set_heap (heap s ++ [Pending]) s).

(** Settling a promise works once; later calls are ignored. *)
Definition settle (p : nat) (d : Deferred) (h : list Deferred)
  : list Deferred :=
  match h !! p with
  | Some Pending => <[p := d]> h
  | _ => h
  end.

Definition resolve (p : nat) (v : Value) : M unit :=
  modify (λ s, set_heap (settle p (Resolved v) (heap s)) s).
Definition reject (p : nat) (e : E) : M unit :=
  modify (λ s, set_heap (settle p (Rejected e) (heap s)) s).

(** [this.socket!.send(JSON.stringify(data))]. *)
Definition socket_send (data : Frame) : M unit :=
  sock ← gets socket;
  match sock with
  | None => throw (TypeError "Cannot read properties of null")
  | Some _ => log (ASocketSend data)
  end.

(** ** [start] and the handlers it installs *)

(** [start()] up to its first await. *)
Definition start : M unit := modify (set_connecting true).

(** [start()] from the moment the polling loop has read [debugUrl]. *)
Definition start_resume (debugUrl : string) : M unit :=
  modify (set_debug_url (Some debugUrl));;
  log (AConsoleLog ("the debug url: " +:+ debugUrl));;
  let url := if JsString.truthy debugUrl then debugUrl else "" in
  log (ANewWebSocket url);;
  modify (set_socket (Some (mkWebSocket url []))).

Definition onopen : M unit :=
  id ← gets next_message_id;
  socket_send (mkFrame id "Network.enable" None);;
  modify (set_next_message_id (id + 1)).

Definition onmessage (message : Message) : M unit :=
  let is_finished :=
    match msg_method message with
    | Some m => JsString.truthy m && String.eqb m "Network.loadingFinished"
    | None => false
    end in
  if is_finished then
    modify (set_connected true);;
    modify (set_connecting false)
  else
    match msg_id message with
    | Some id =>
        resolvable ← gets (λ s, resolvables s !! id);
        match resolvable with
        | Some p =>
            match msg_result message with
            | Some r => resolve p (Payload r)
            | None => ret tt
            end;;
            match msg_error message with
            | Some e => reject p e
            | None => ret tt
            end
        | None => ret tt
        end
    | None => ret tt
    end.

Definition onclose : M unit :=
  modify (set_connected false);;
  modify (set_connecting false);;
  d ← gets is_done;
  if Bool.eqb d false then throw (Error "Unhandled. todo") else ret tt.

Definition onerror : M unit :=
  modify (set_connected false);;
  modify (set_connecting false);;
  d ← gets is_done;
  if Bool.eqb d false then
    log AConsoleError;;
    throw (Error "Unencountered error")
  else ret tt.

(** The socket's [close] event: [onclose] first, then the listeners
    added later; a handler that throws does not stop the others, and
    its error is what the event loop reports. *)
Definition dispatch_close : M unit :=
  λ s,
    let '(o, s1) := onclose s in
    let listeners :=
      match socket s1 with
      | Some w => ws_close_listeners w
      | None => []
      end in
    (o, foldl (λ acc p, (resolve p Undefined acc).2) s1 listeners).

(** ** [sendWebSocketMessage] *)

(** What a call is suspended on at [await]. *)
Inductive SendWait : Type :=
  | WaitPending (pending : nat)
  | WaitDelay (ms : Z) (method : string)
              (params : option (list (string * json))).

Inductive SendState : Type :=
  | SendReturned (v : Value)
  | SendWaiting (w : SendWait).

(** One activation of the method, up to its await: [WaitPending p] is
    [return await pending]; [WaitDelay 100 method params] is
    [await delay(100)], after which the method calls itself with
    [method] and [params]. *)
Definition sendWebSocketMessage
    (method : string) (params : option (list (string * json)))
  : M SendState :=
  c ← gets connected;
  sock ← gets socket;
  if c && bool_decide (is_Some sock) then
    id ← gets next_message_id;
    modify (set_next_message_id (id + 1));;
    let data := mkFrame id method params in
    pending ← deferred;
    modify (λ s, set_resolvables (<[id := pending]> (resolvables s)) s);;
    socket_send data;;
    ret (SendWaiting (WaitPending pending))
  else
    (cg ← gets connecting;
     if (cg : bool) then ret (SendWaiting (WaitDelay 100 method params))
     else ret (SendReturned Undefined)).

(** The suspended call is looked at again: after the delay the method
    re-enters itself; on [await pending] it goes on once the promise is
    settled, returning its value or throwing its rejection. *)
Definition send_resume (w : SendWait) : M SendState :=
  match w with
  | WaitDelay _ method params => sendWebSocketMessage method params
  | WaitPending p =>
      d ← gets (λ s, heap s !! p);
      match d with
      | Some (Resolved v) => ret (SendReturned v)
      | Some (Rejected e) => throw (Rejection e)
      | _ => ret (SendWaiting w)
      end
  end.

(** ** [done] *)

(** [done()] up to [await promise]; the address of [promise] is
    returned. *)
Definition done : M nat :=
  sleep 1000;;
  promise ← deferred;
  modify (set_is_done true);; log AMarkDone;;
  log AStderrClose;;
  log AProcessClose;;
  sock ← gets socket;
  match sock with
  | None => throw (TypeError "Cannot read properties of null")
  | Some w =>
      modify (set_socket
        (Some (mkWebSocket (ws_url w) (ws_close_listeners w ++ [promise]))));;
      log (ASocketAddCloseListener promise);;
      log ASocketClose;;
      ret promise
  end.

(** [await promise] in [done()]: has the caller got control back? *)
Definition done_returned (promise : nat) (s : HeadlessBrowser) : bool :=
  match heap s !! promise with
  | Some (Resolved _) => true
  | _ => false
  end.

(** ** Runs of a session

    What can happen to a session, one event-loop turn each: the caller
    enters a method, a suspended [start] reads the endpoint, or the
    socket fires one of the handlers [start] installed. *)

Inductive Event : Type :=
  | CallStart
  | EndpointReady (debugUrl : string)
  | SocketOpen
  | SocketMessage (message : Message)
  | SocketClose
  | SocketError
  | CallSend (method : string) (params : option (list (string * json)))
  | CallDone
  | CallSleep (ms : Z).

(** The socket fires only once it exists. Which [start] call an
    [EndpointReady] resumes is not tracked: the runs of the model
    include every interleaving the class can show. *)
Definition enabled (ev : Event) (s : HeadlessBrowser) : bool :=
  match ev with
  | SocketOpen | SocketMessage _ | SocketClose | SocketError =>
      bool_decide (is_Some (socket s))
  | _ => true
  end.

(** The session after the turn; an exception thrown by the turn goes to
    whoever started it and the session lives on. *)
Definition handle (ev : Event) (s : HeadlessBrowser) : HeadlessBrowser :=
  match ev with
  | CallStart => (start s).2
  | EndpointReady debugUrl => (start_resume debugUrl s).2
  | SocketOpen => (onopen s).2
  | SocketMessage message => (onmessage message s).2
  | SocketClose => (dispatch_close s).2
  | SocketError => (onerror s).2
  | CallSend method params => (sendWebSocketMessage method params s).2
  | CallDone => (done s).2
  | CallSleep ms => (sleep ms s).2
  end.

Fixpoint run (evs : list Event) (s : HeadlessBrowser)
  : option HeadlessBrowser :=
  match evs with
  | [] => Some s
  | ev :: evs' => if enabled ev s then run evs' (handle ev s) else None
  end.

(** The frames written to the socket, oldest first. *)
Fixpoint sent (t : list Action) : list Frame :=
  match t with
  | [] => []
  | ASocketSend f :: t' => f :: sent t'
  | _ :: t' => sent t'
  end.

End Session.

Global Arguments Value : clear implicits.
Global Arguments Deferred : clear implicits.
Global Arguments Exn : clear implicits.
Global Arguments Outcome : clear implicits.
Global Arguments Message : clear implicits.
Global Arguments HeadlessBrowser : clear implicits.
Global Arguments M : clear implicits.
Global Arguments SendState : clear implicits.
Global Arguments Event : clear implicits.

(** ** The command facade

    Every command evaluates one expression with [Runtime.evaluate]; the
    response is read as a [DOMOutput]. *)

Section Facade.

Context {E : Type}.

Abbreviation Cmd := (M DOMOutput E).

(** A facade call: returned, or suspended inside its
    [await this.sendWebSocketMessage(...)] with the rest of its body. *)
Inductive Call (A : Type) : Type :=
  | Returned (a : A)
  | Awaiting (w : SendWait) (k : Value DOMOutput → Cmd A).
Global Arguments Returned {A} a.
Global Arguments Awaiting {A} w k.

Definition after_send {A} (r : SendState DOMOutput)
    (k : Value DOMOutput → Cmd A) : Cmd (Call A) :=
  match r with
  | SendReturned v => a ← k v; ret (Returned a)
  | SendWaiting w => ret (Awaiting w k)
  end.

(** The suspended call is looked at again. *)
Definition resume {A} (c : Call A) : Cmd (Call A) :=
  match c with
  | Returned a => ret c
  | Awaiting w k => r ← send_resume w; after_send r k
  end.

Definition checkForErrorResult
    (result : Value DOMOutput) (commandSent : string) : Cmd unit :=
  match result with
  | Undefined => throw (TypeError "Cannot read properties of undefined")
  | Payload result =>
      match exceptionDetails result with
      | Some exceptionDetail =>
          let errorMessage := exc_description (exception exceptionDetail) in
          if JsString.indexOf
               (exc_description (exception exceptionDetail)) "SyntaxError"
             >? -1
          then
            let message :=
              JsString.replace errorMessage "SyntaxError: " "" in
            throw (SyntaxError (message +:+ ": `" +:+ commandSent +:+ "`"))
          else
            throw (Error (errorMessage +:+ ": " +:+ JsString.dquote +:+
                          commandSent +:+ JsString.dquote))
      | None => ret tt
      end
  end.

Definition evaluate (command : string) : Cmd (SendState DOMOutput) :=
  sendWebSocketMessage "Runtime.evaluate"
    (Some [("expression"%string, JStr command)]).

Definition click (selector : string) : Cmd (Call unit) :=
  let command := "document.querySelector('" +:+ selector +:+ "').click()" in
  r ← evaluate command;
  after_send r (λ result,
    checkForErrorResult result command;;
    sleep 1000).

Definition getInputValue (selector : string) : Cmd (Call string) :=
  let command := "document.querySelector('" +:+ selector +:+ "').value" in
  r ← evaluate command;
  after_send r (λ res,
    match res with
    | Undefined => throw (TypeError "Cannot read properties of undefined")
    | Payload out =>
        let type := type_of (result out) in
        if String.eqb type "undefined" then ret "undefined"%string
        else
          checkForErrorResult res command;;
          let value := value_of (result out) in
          ret (match value with
               | Some v => if JsString.truthy v then v else ""%string
               | None => ""%string
               end)
    end).

Definition waitForAjax : Cmd (Call unit) :=
  r ← evaluate "!$.active";
  after_send r (λ res, checkForErrorResult res "!$.active").

Definition type (selector value : string) : Cmd (Call unit) :=
  let command :=
    "document.querySelector('" +:+ selector +:+ "').value = " +:+
    JsString.dquote +:+ value +:+ JsString.dquote in
  r ← evaluate command;
  after_send r (λ res,
    checkForErrorResult res command;;
    sleep 500).

End Facade.

Global Arguments Call : clear implicits.

(** * Properties *)

(** ** Equations of the primitive operations *)

Ltac unfold_m :=
  unfold socket_send, sleep, resolve, reject in *;
  unfold log in *;
  unfold mbind, M_bind, bind, ret, throw, gets, modify, deferred in *.

Section SessionFacts.

Context {R E : Type}.
Implicit Types s : HeadlessBrowser R E.

Lemma sent_app (t1 t2 : list Action) : sent (t1 ++ t2) = sent t1 ++ sent t2.
Proof.
  induction t1 as [|a t1 IH]; [reflexivity|].
  destruct a; simpl; rewrite ?IH; reflexivity.
Qed.

Lemma settle_length p d (h : list (Deferred R E)) :
  length (settle p d h) = length h.
Proof.
  unfold settle. destruct (h !! p) as [[]|]; auto using length_insert.
Qed.

Lemma settle_other p q d (h : list (Deferred R E)) :
  p ≠ q → settle p d h !! q = h !! q.
Proof.
  intros Hne. unfold settle.
  destruct (h !! p) as [[]|]; auto using list_lookup_insert_ne.
Qed.

Lemma settle_pending p d (h : list (Deferred R E)) :
  h !! p = Some Pending → settle p d h !! p = Some d.
Proof.
  intros Hp. unfold settle. rewrite Hp.
  apply list_lookup_insert_eq. eapply lookup_lt_Some, Hp.
Qed.

Lemma settle_settled p d (h : list (Deferred R E)) :
  h !! p ≠ Some Pending → settle p d h = h.
Proof.
  intros Hp. unfold settle. destruct (h !! p) as [[]|]; congruence.
Qed.

(** *** [onmessage], case by case *)

Definition is_loadingFinished (message : Message R E) : bool :=
  match msg_method message with
  | Some m => JsString.truthy m && String.eqb m "Network.loadingFinished"
  | None => false
  end.

(** What the two [if]s on ["result"] and ["error"] do to the promise
    at [p]. *)
Definition deliver (message : Message R E) (p : nat)
    (h : list (Deferred R E)) : list (Deferred R E) :=
  let h1 := match msg_result message with
            | Some r => settle p (Resolved (Payload r)) h
            | None => h
            end in
  match msg_error message with
  | Some e => settle p (Rejected e) h1
  | None => h1
  end.

Lemma is_loadingFinished_spec (message : Message R E) :
  is_loadingFinished message = true ↔
  msg_method message = Some "Network.loadingFinished"%string.
Proof.
  unfold is_loadingFinished. destruct (msg_method message) as [m|].
  - rewrite andb_true_iff, String.eqb_eq. split.
    + intros [_ ->]. reflexivity.
    + intros [= ->]. split; reflexivity.
  - split; discriminate.
Qed.

Lemma onmessage_finished message s :
  is_loadingFinished message = true →
  onmessage message s = (Ok tt, set_connecting false (set_connected true s)).
Proof.
  intros H. unfold onmessage. fold (is_loadingFinished message).
  rewrite H. reflexivity.
Qed.

Lemma onmessage_no_id message s :
  is_loadingFinished message = false →
  msg_id message = None →
  onmessage message s = (Ok tt, s).
Proof.
  intros H Hid. unfold onmessage. fold (is_loadingFinished message).
  rewrite H, Hid. reflexivity.
Qed.

Lemma onmessage_unknown message id s :
  is_loadingFinished message = false →
  msg_id message = Some id →
  resolvables s !! id = None →
  onmessage message s = (Ok tt, s).
Proof.
  intros H Hid Hnone. unfold onmessage. fold (is_loadingFinished message).
  rewrite H, Hid. unfold_m. rewrite Hnone. reflexivity.
Qed.

Lemma onmessage_known message id p s :
  is_loadingFinished message = false →
  msg_id message = Some id →
  resolvables s !! id = Some p →
  onmessage message s = (Ok tt, set_heap (deliver message p (heap s)) s).
Proof.
  intros H Hid Hp. unfold onmessage. fold (is_loadingFinished message).
  rewrite H, Hid. unfold_m. rewrite Hp. unfold deliver.
  destruct s; destruct (msg_result message), (msg_error message);
    reflexivity.
Qed.

Lemma deliver_length message p (h : list (Deferred R E)) :
  length (deliver message p h) = length h.
Proof.
  unfold deliver.
  destruct (msg_result message), (msg_error message);
    rewrite ?settle_length; reflexivity.
Qed.

Lemma deliver_other message p q (h : list (Deferred R E)) :
  p ≠ q → deliver message p h !! q = h !! q.
Proof.
  intros Hne. unfold deliver.
  destruct (msg_result message), (msg_error message);
    rewrite ?settle_other by done; reflexivity.
Qed.

(** The session after [onmessage]: every field but [connected],
    [connecting] and [heap] is as before. *)
Lemma onmessage_frame message s :
  let s' := (onmessage message s).2 in
  socket s' = socket s ∧ debug_url s' = debug_url s ∧
  next_message_id s' = next_message_id s ∧ is_done s' = is_done s ∧
  resolvables s' = resolvables s ∧ trace s' = trace s ∧
  length (heap s') = length (heap s).
Proof.
  destruct (is_loadingFinished message) eqn:Hf.
  { rewrite onmessage_finished by done. cbn. tauto. }
  destruct (msg_id message) as [id|] eqn:Hid.
  2:{ rewrite onmessage_no_id by done. cbn. tauto. }
  destruct (resolvables s !! id) as [p|] eqn:Hp.
  2:{ rewrite (onmessage_unknown _ id) by done. cbn. tauto. }
  rewrite (onmessage_known _ id p) by done. cbn.
  rewrite deliver_length. tauto.
Qed.

(** *** [sendWebSocketMessage], branch by branch *)

Lemma sendWebSocketMessage_connected_eq method params s :
  connected s = true → is_Some (socket s) →
  sendWebSocketMessage method params s =
    (Ok (SendWaiting (WaitPending (length (heap s)))),
     set_trace
       (trace s ++ [ASocketSend (mkFrame (next_message_id s) method params)])
       (set_resolvables
          (<[next_message_id s := length (heap s)]> (resolvables s))
          (set_heap (heap s ++ [Pending])
             (set_next_message_id (next_message_id s + 1) s)))).
Proof.
  intros Hc [w Hw]. unfold sendWebSocketMessage. unfold_m.
  rewrite Hc, Hw. cbn. rewrite Hw. reflexivity.
Qed.

Lemma sendWebSocketMessage_connecting_eq method params s :
  connected s = false → connecting s = true →
  sendWebSocketMessage method params s =
    (Ok (SendWaiting (WaitDelay 100 method params)), s).
Proof.
  intros Hc Hg. unfold sendWebSocketMessage. unfold_m.
  rewrite Hc. cbn. rewrite Hg. reflexivity.
Qed.

Lemma sendWebSocketMessage_idle_eq method params s :
  connected s = false → connecting s = false →
  sendWebSocketMessage method params s = (Ok (SendReturned Undefined), s).
Proof.
  intros Hc Hg. unfold sendWebSocketMessage. unfold_m.
  rewrite Hc. cbn. rewrite Hg. reflexivity.
Qed.

End SessionFacts.

(** ** The invariant of a session *)

Section Invariant.

Context {R E : Type}.
Implicit Types s : HeadlessBrowser R E.

(** The ids of the frames written to the socket, oldest first. *)
Definition sent_ids s : list Z := frame_id <$> sent (trace s).

Record wf s : Prop := mk_wf {
  wf_next : 1 ≤ next_message_id s;
  wf_sent_below : Forall (λ i, 1 ≤ i < next_message_id s) (sent_ids s);
  wf_sent_sorted : StronglySorted Z.lt (sent_ids s);
  wf_slots : ∀ id p, resolvables s !! id = Some p →
               id < next_message_id s ∧ (p < length (heap s))%nat;
  wf_slots_inj : ∀ i j p, resolvables s !! i = Some p →
                   resolvables s !! j = Some p → i = j;
  wf_socket : connected s = true → is_Some (socket s)
}.

Lemma wf_init : wf (@init R E).
Proof.
  split; cbn; try done; constructor.
Qed.

(** Resolving the listeners of [close] touches the heap only, and keeps
    its length. *)
Lemma resolve_listeners_frame (ps : list nat) s :
  let s' := foldl (λ acc p, (resolve p Undefined acc).2) s ps in
  socket s' = socket s ∧ debug_url s' = debug_url s ∧
  next_message_id s' = next_message_id s ∧ connected s' = connected s ∧
  connecting s' = connecting s ∧ is_done s' = is_done s ∧
  resolvables s' = resolvables s ∧ trace s' = trace s ∧
  length (heap s') = length (heap s).
Proof.
  revert s. induction ps as [|p ps IH]; intros s; cbn; [tauto|].
  specialize (IH (resolve p Undefined s).2). cbn in IH.
  destruct IH as (-> & -> & -> & -> & -> & -> & -> & -> & ->).
  unfold_m. cbn. rewrite settle_length. tauto.
Qed.

(** A frame with the next id goes out and the counter moves on. *)
Lemma sent_ids_snoc (ids : list Z) (n : Z) :
  1 ≤ n →
  Forall (λ i, 1 ≤ i < n) ids → StronglySorted Z.lt ids →
  Forall (λ i, 1 ≤ i < n + 1) (ids ++ [n]) ∧
  StronglySorted Z.lt (ids ++ [n]).
Proof.
  intros Hn Hb Hs. split.
  - apply Forall_app. split.
    + eapply Forall_impl; [exact Hb|]. cbn. lia.
    + repeat constructor; lia.
  - apply StronglySorted_app_2; [|done|repeat constructor].
    intros x1 x2 H1 ->%list_elem_of_singleton.
    rewrite Forall_forall in Hb. apply Hb in H1. lia.
Qed.

Lemma wf_intro_same s s' :
  wf s →
  next_message_id s' = next_message_id s →
  sent (trace s') = sent (trace s) →
  resolvables s' = resolvables s →
  (length (heap s) ≤ length (heap s'))%nat →
  (connected s' = true → is_Some (socket s')) →
  wf s'.
Proof.
  intros [H1 H2 H3 H4 H5 H6] Hn Ht Hr Hh Hs.
  split; unfold sent_ids in *; rewrite ?Hn, ?Ht, ?Hr; try done.
  intros id p Hp. destruct (H4 id p Hp). split; lia.
Qed.

Lemma wf_handle ev s : wf s → enabled ev s = true → wf (handle ev s).
Proof.
  intros Hwf Hen. pose proof Hwf as [H1 H2 H3 H4 H5 H6].
  destruct ev; cbn [handle enabled] in *;
    try apply bool_decide_eq_true in Hen.
  - (* start *)
    apply (wf_intro_same s); cbn; done.
  - (* start_resume *)
    unfold start_resume. unfold_m. cbn.
    apply (wf_intro_same s); cbn; try done.
    rewrite !sent_app. cbn. rewrite !app_nil_r. done.
  - (* onopen *)
    destruct Hen as [w Hw]. unfold onopen. unfold_m. cbn. rewrite Hw. cbn.
    destruct (sent_ids_snoc (sent_ids s) (next_message_id s)) as [Hb Hs];
      try done.
    split; unfold sent_ids in *; cbn; rewrite ?sent_app, ?fmap_app; cbn;
      try done; try lia.
    all: try (intros id p Hp; destruct (H4 id p Hp); split; lia).
    all: try (rewrite Hw; done).
  - (* onmessage *)
    destruct (onmessage_frame message s)
      as (Hsock & _ & Hn & _ & Hr & Ht & Hh).
    apply (wf_intro_same s).
    + done.
    + exact Hn.
    + exact (f_equal sent Ht).
    + exact Hr.
    + apply Nat.eq_le_incl. symmetry. exact Hh.
    + intros _. cbn in Hsock. rewrite Hsock. exact Hen.
  - (* close *)
    unfold dispatch_close.
    destruct (onclose s) as [o s1] eqn:Hclose. cbn.
    assert (s1 = set_connecting false (set_connected false s)) as ->.
    { unfold onclose in Hclose. unfold_m. cbn in Hclose.
      destruct (Bool.eqb (is_done s) false); congruence. }
    match goal with |- wf (foldl _ ?a ?l) =>
      destruct (resolve_listeners_frame l a)
        as (Hsock & _ & Hn & Hc & _ & _ & Hr & Ht & Hh) end.
    apply (wf_intro_same s).
    + done.
    + exact Hn.
    + exact (f_equal sent Ht).
    + exact Hr.
    + apply Nat.eq_le_incl. symmetry. exact Hh.
    + intros Hc'. exfalso.
      assert (connected (set_connecting false (set_connected false s))
              = true) as Hfalse by (rewrite <- Hc; exact Hc').
      discriminate Hfalse.
  - (* error *)
    unfold onerror. unfold_m. cbn.
    destruct (Bool.eqb (is_done s) false); cbn;
      apply (wf_intro_same s); cbn; try done.
    rewrite sent_app. cbn. by rewrite app_nil_r.
  - (* sendWebSocketMessage *)
    destruct (connected s) eqn:Hc.
    + rewrite sendWebSocketMessage_connected_eq by auto. cbn.
      destruct (sent_ids_snoc (sent_ids s) (next_message_id s)) as [Hb Hs];
        try done.
      split; unfold sent_ids in *; cbn; rewrite ?sent_app, ?fmap_app; cbn;
        try done; try lia.
      * intros id p. rewrite length_app. cbn.
        destruct (decide (next_message_id s = id)) as [<-|Hne].
        -- rewrite lookup_insert_eq. intros [= <-]. split; lia.
        -- rewrite lookup_insert_ne by done. intros Hp.
           destruct (H4 id p Hp). split; lia.
      * intros i j p.
        destruct (decide (next_message_id s = i)) as [<-|Hi],
                 (decide (next_message_id s = j)) as [<-|Hj];
          rewrite ?lookup_insert_eq, ?lookup_insert_ne by done; try done.
        -- intros [= <-] Hp. destruct (H4 j _ Hp). lia.
        -- intros Hp [= <-]. destruct (H4 i _ Hp). lia.
        -- apply H5.
      * auto.
    + destruct (connecting s) eqn:Hg.
      * rewrite sendWebSocketMessage_connecting_eq by done. done.
      * rewrite sendWebSocketMessage_idle_eq by done. done.
  - (* done *)
    unfold done. unfold_m. cbn.
    destruct (socket s) as [w|] eqn:Hw; cbn;
      apply (wf_intro_same s); cbn; rewrite ?sent_app, ?length_app; cbn;
      rewrite ?app_nil_r; try done; try lia.
    intros Hc. apply H6 in Hc. destruct Hc as [? [=]].
  - (* sleep *)
    unfold_m. cbn. apply (wf_intro_same s); cbn; try done.
    rewrite sent_app. cbn. by rewrite app_nil_r.
Qed.

Lemma wf_run evs s s' : wf s → run evs s = Some s' → wf s'.
Proof.
  revert s. induction evs as [|ev evs IH]; intros s Hwf; cbn.
  - intros [= <-]. done.
  - destruct (enabled ev s) eqn:Hen; [|done].
    apply IH, wf_handle; done.
Qed.

Lemma run_app evs1 evs2 s :
  run (evs1 ++ evs2) s = run evs1 s ≫= run evs2.
Proof.
  revert s. induction evs1 as [|ev evs1 IH]; intros s; cbn; [done|].
  destruct (enabled ev s); [apply IH|done].
Qed.

End Invariant.

(** ** [connected] is set by the notification only *)

Section Connected.

Context {R E : Type}.
Implicit Types s : HeadlessBrowser R E.

(** One turn of the event loop that leaves the session connected
    either found it connected or was the notification. *)
Lemma handle_connected ev s :
  connected (handle ev s) = true →
  connected s = true ∨
  ∃ message, ev = SocketMessage message ∧
             msg_method message = Some "Network.loadingFinished"%string.
Proof.
  destruct ev; cbn [handle].
  - cbn. auto.
  - unfold start_resume. unfold_m. cbn. auto.
  - unfold onopen. unfold_m. cbn. destruct (socket s); cbn; auto.
  - destruct (is_loadingFinished message) eqn:Hf.
    + intros _. right. exists message. split; [done|].
      by apply is_loadingFinished_spec.
    + destruct (msg_id message) as [id|] eqn:Hid.
      2:{ rewrite onmessage_no_id by done. cbn. auto. }
      destruct (resolvables s !! id) as [p|] eqn:Hp.
      * rewrite (onmessage_known _ id p) by done. cbn. auto.
      * rewrite (onmessage_unknown _ id) by done. cbn. auto.
  - unfold dispatch_close.
    destruct (onclose s) as [o s1] eqn:Hclose. cbn.
    assert (s1 = set_connecting false (set_connected false s)) as ->.
    { unfold onclose in Hclose. unfold_m. cbn in Hclose.
      destruct (Bool.eqb (is_done s) false); congruence. }
    match goal with |- connected (foldl _ ?a ?l) = _ → _ =>
      destruct (resolve_listeners_frame l a)
        as (_ & _ & _ & Hc & _) end.
    intros Hc'. exfalso.
    assert (connected (set_connecting false (set_connected false s))
            = true) as Hfalse by (rewrite <- Hc; exact Hc').
    discriminate Hfalse.
  - unfold onerror. unfold_m. cbn.
    destruct (Bool.eqb (is_done s) false); cbn; discriminate.
  - destruct (connected s) eqn:Hc; [auto|].
    destruct (connecting s) eqn:Hg.
    + rewrite sendWebSocketMessage_connecting_eq by done. cbn.
      rewrite Hc. discriminate.
    + rewrite sendWebSocketMessage_idle_eq by done. cbn.
      rewrite Hc. discriminate.
  - unfold done. unfold_m. cbn. destruct (socket s); cbn; auto.
  - unfold_m. cbn. auto.
Qed.

Lemma run_connected evs s s' :
  run evs s = Some s' →
  connected s' = true →
  connected s = true ∨
  ∃ message, SocketMessage message ∈ evs ∧
             msg_method message = Some "Network.loadingFinished"%string.
Proof.
  revert s. induction evs as [|ev evs IH]; intros s; cbn.
  - intros [= <-]. auto.
  - destruct (enabled ev s); [|done]. intros Hrun Hc.
    destruct (IH _ Hrun Hc) as [Hc1|(message & Hin & Hm)].
    + destruct (handle_connected ev s Hc1) as [?|(message & -> & Hm)];
        [auto|].
      right. exists message. split; [left|done].
    + right. exists message. split; [by right|done].
Qed.

End Connected.

(** * The claims *)

(** C10: a call to [sendWebSocketMessage] on a session that is neither
    connected nor connecting returns [undefined] and leaves the session
    as it was: no request id is allocated, no pending slot is recorded,
    no frame is written to the socket. *)
Theorem sendWebSocketMessage_idle {R E : Type}
    (method : string) (params : option (list (string * json)))
    (s : HeadlessBrowser R E) :
  connected s = false → connecting s = false →
  sendWebSocketMessage method params s = (Ok (SendReturned Undefined), s).
Proof. apply sendWebSocketMessage_idle_eq. Qed.

Lemma sendWebSocketMessage_idle_witness :
  sendWebSocketMessage "Runtime.evaluate" None (@init unit unit)
  = (Ok (SendReturned Undefined), init).
Proof. apply sendWebSocketMessage_idle; reflexivity. Defined.

(** The two situations C10 names: a session on which [start] was never
    called, and a session whose socket has closed. *)
Lemma idle_before_start {R E : Type} :
  connected (@init R E) = false ∧ connecting (@init R E) = false.
Proof. split; reflexivity. Qed.

Lemma idle_after_close {R E : Type} (s : HeadlessBrowser R E) :
  connected (handle SocketClose s) = false ∧
  connecting (handle SocketClose s) = false.
Proof.
  cbn [handle]. unfold dispatch_close.
  destruct (onclose s) as [o s1] eqn:Hclose. cbn.
  assert (s1 = set_connecting false (set_connected false s)) as ->.
  { unfold onclose in Hclose. unfold_m. cbn in Hclose.
    destruct (Bool.eqb (is_done s) false); congruence. }
  match goal with |- connected (foldl _ ?a ?l) = _ ∧ _ =>
    destruct (resolve_listeners_frame l a)
      as (_ & _ & _ & Hc & Hg & _) end.
  split; [exact Hc|exact Hg].
Qed.

(** C6: in every run of a session from its initial state, if the
    session is connected then a notification whose method is
    [Network.loadingFinished] has arrived on the socket earlier in the
    run; and neither [start] (before or after it has opened the socket)
    nor the socket's [open] handler, which sends the handshake, changes
    [connected]. *)
Theorem connected_only_after_loadingFinished {R E : Type}
    (evs : list (Event R E)) (s : HeadlessBrowser R E) :
  run evs init = Some s →
  (connected s = true →
   ∃ message, SocketMessage message ∈ evs ∧
              msg_method message = Some "Network.loadingFinished"%string) ∧
  connected (handle CallStart s) = connected s ∧
  (∀ debugUrl, connected (handle (EndpointReady debugUrl) s) = connected s) ∧
  connected (handle SocketOpen s) = connected s.
Proof.
  intros Hrun. split; [|split; [|split]].
  - intros Hc. destruct (run_connected _ _ _ Hrun Hc) as [Hinit|H]; [|done].
    discriminate Hinit.
  - reflexivity.
  - intros debugUrl. cbn [handle]. unfold start_resume. unfold_m.
    reflexivity.
  - cbn [handle]. unfold onopen. unfold_m. cbn.
    destruct (socket s); reflexivity.
Qed.

Lemma connected_only_after_loadingFinished_witness :
  let ready : Message unit unit :=
    mkMessage (Some "Network.loadingFinished"%string) None None None None in
  let evs := [CallStart; EndpointReady "ws://localhost:9292/devtools/page/1";
              SocketOpen; SocketMessage ready] in
  ∃ s, run evs init = Some s ∧ connected s = true ∧
       ∃ message, SocketMessage message ∈ evs ∧
                  msg_method message = Some "Network.loadingFinished"%string.
Proof.
  eexists. split; [reflexivity|]. split; [reflexivity|].
  eapply connected_only_after_loadingFinished; reflexivity.
Defined.

(** ** Request ids *)

Lemma increasing_NoDup (ids : list Z) : StronglySorted Z.lt ids → NoDup ids.
Proof.
  induction 1 as [|i ids Hs IH Hlt]; constructor; [|exact IH].
  intros Hin. rewrite Forall_forall in Hlt. apply Hlt in Hin. lia.
Qed.

(** The handshake takes its id from the same counter. *)
Lemma onopen_eq {R E : Type} (s : HeadlessBrowser R E) :
  is_Some (socket s) →
  onopen s =
    (Ok tt,
     set_next_message_id (next_message_id s + 1)
       (set_trace
          (trace s ++
           [ASocketSend (mkFrame (next_message_id s) "Network.enable" None)])
          s)).
Proof.
  intros [w Hw]. unfold onopen. unfold_m. cbn. rewrite Hw. reflexivity.
Qed.

(** In every run the ids of the frames written to the socket, handshake
    included, increase strictly in the order of sending. *)
Lemma sent_ids_increasing {R E : Type}
    (evs : list (Event R E)) (s : HeadlessBrowser R E) :
  run evs init = Some s →
  StronglySorted Z.lt (sent_ids s) ∧ NoDup (sent_ids s).
Proof.
  intros Hrun. pose proof (wf_run _ _ _ wf_init Hrun) as Hwf.
  split; [apply Hwf|apply increasing_NoDup, Hwf].
Qed.

(** C3: the counter starts at 1; a call to [sendWebSocketMessage] on a
    connected session (reached by any run from the initial state) takes
    the current value of the counter as the request id and increments
    the counter, records a fresh pending promise under that id (which
    was not in use), writes the frame [{id, method, params?}] to the
    socket ([params] left out when absent) and is suspended on that
    promise; every frame sent before, the handshake included, has a
    smaller id, so the ids of all frames sent increase strictly and no
    two are equal; the suspended call stays suspended while the promise
    is pending, returns its value once resolved and throws its error
    once rejected. *)
Theorem sendWebSocketMessage_connected {R E : Type}
    (evs : list (Event R E)) (s : HeadlessBrowser R E)
    (method : string) (params : option (list (string * json))) :
  run evs init = Some s →
  connected s = true →
  let id := next_message_id s in
  let pending := length (heap s) in
  next_message_id (@init R E) = 1 ∧
  ∃ s',
    sendWebSocketMessage method params s
      = (Ok (SendWaiting (WaitPending pending)), s') ∧
    next_message_id s' = id + 1 ∧
    resolvables s !! id = None ∧
    resolvables s' = <[id := pending]> (resolvables s) ∧
    heap s' = heap s ++ [Pending] ∧
    trace s' = trace s ++ [ASocketSend (mkFrame id method params)] ∧
    socket s' = socket s ∧ connected s' = true ∧
    Forall (λ i, 1 ≤ i < id) (sent_ids s) ∧
    sent_ids s' = sent_ids s ++ [id] ∧
    StronglySorted Z.lt (sent_ids s') ∧
    NoDup (sent_ids s') ∧
    (∀ s2 : HeadlessBrowser R E, heap s2 !! pending = Some Pending →
           send_resume (WaitPending pending) s2
             = (Ok (SendWaiting (WaitPending pending)), s2)) ∧
    (∀ (s2 : HeadlessBrowser R E) v, heap s2 !! pending = Some (Resolved v) →
             send_resume (WaitPending pending) s2
               = (Ok (SendReturned v), s2)) ∧
    (∀ (s2 : HeadlessBrowser R E) e, heap s2 !! pending = Some (Rejected e) →
             send_resume (WaitPending pending) s2
               = (Throw (Rejection e), s2)).
Proof.
  intros Hrun Hc id pending.
  pose proof (wf_run _ _ _ wf_init Hrun) as Hwf.
  pose proof (wf_socket _ Hwf Hc) as Hsock.
  assert (wf (handle (CallSend method params) s)) as Hwf'
    by (apply wf_handle; done).
  cbn [handle] in Hwf'.
  split; [reflexivity|].
  rewrite sendWebSocketMessage_connected_eq in * by done.
  eexists. split; [reflexivity|]. cbn in *.
  assert (sent_ids
            (set_trace
               (trace s ++ [ASocketSend (mkFrame id method params)])
               (set_resolvables (<[id := pending]> (resolvables s))
                  (set_heap (heap s ++ [Pending])
                     (set_next_message_id (id + 1) s))))
          = sent_ids s ++ [id]) as Hids.
  { unfold sent_ids. cbn. rewrite sent_app, fmap_app. reflexivity. }
  repeat split; try done.
  - destruct (resolvables s !! id) as [p|] eqn:Hp; [|done].
    destruct (wf_slots _ Hwf _ _ Hp). unfold id in *. lia.
  - apply Hwf.
  - apply Hwf'.
  - apply increasing_NoDup, Hwf'.
  - intros s2 H2. unfold send_resume. unfold_m. cbn. rewrite H2. done.
  - intros s2 v H2. unfold send_resume. unfold_m. cbn. rewrite H2. done.
  - intros s2 e H2. unfold send_resume. unfold_m. cbn. rewrite H2. done.
Qed.

Lemma sendWebSocketMessage_connected_witness :
  let ready : Message unit unit :=
    mkMessage (Some "Network.loadingFinished"%string) None None None None in
  let evs := [CallStart; EndpointReady "ws://localhost:9292/devtools/page/1";
              SocketOpen; SocketMessage ready] in
  ∃ s s' : HeadlessBrowser unit unit,
    run evs init = Some s ∧ connected s = true ∧
    sendWebSocketMessage "Runtime.evaluate"
      (Some [("expression"%string, JStr "1 + 1")]) s
      = (Ok (SendWaiting (WaitPending 0)), s') ∧
    sent (trace s') =
      [mkFrame 1 "Network.enable" None;
       mkFrame 2 "Runtime.evaluate"
         (Some [("expression"%string, JStr "1 + 1")])].
Proof.
  intros ready evs.
  pose (s := default init (run evs init)).
  destruct (sendWebSocketMessage_connected evs s "Runtime.evaluate"
              (Some [("expression"%string, JStr "1 + 1")]))
    as (_ & s' & Hsend & _ & _ & _ & _ & Htrace & _);
    [reflexivity|reflexivity|].
  exists s, s'. split; [reflexivity|]. split; [reflexivity|].
  split; [exact Hsend|]. rewrite Htrace. reflexivity.
Defined.

(** ** Responses and the slots they settle *)

Section Responses.

Context {R E : Type}.
Implicit Types s : HeadlessBrowser R E.
Implicit Types message : Message R E.

(** A Response: an inbound frame with an [id] and no [method]. *)
Definition is_response message : Prop :=
  msg_method message = None ∧ is_Some (msg_id message).

(** What a pending promise becomes when the frame is delivered to it:
    [resolve] is called first, and [reject] on a resolved promise is
    ignored. *)
Definition settled_by message : Deferred R E :=
  match msg_result message, msg_error message with
  | Some r, _ => Resolved (Payload r)
  | None, Some e => Rejected e
  | None, None => Pending
  end.

Lemma set_heap_same s : set_heap (heap s) s = s.
Proof. destruct s; reflexivity. Qed.

Lemma onmessage_ok message s : (onmessage message s).1 = Ok tt.
Proof.
  destruct (is_loadingFinished message) eqn:Hf.
  { by rewrite onmessage_finished. }
  destruct (msg_id message) as [id|] eqn:Hid.
  2:{ by rewrite onmessage_no_id. }
  destruct (resolvables s !! id) as [p|] eqn:Hp.
  - by rewrite (onmessage_known _ id p).
  - by rewrite (onmessage_unknown _ id).
Qed.

Lemma response_not_finished message :
  msg_method message = None → is_loadingFinished message = false.
Proof. unfold is_loadingFinished. by intros ->. Qed.

Lemma deliver_pending message p (h : list (Deferred R E)) :
  h !! p = Some Pending →
  deliver message p h !! p = Some (settled_by message).
Proof.
  intros Hp. unfold deliver, settled_by.
  destruct (msg_result message) as [r|], (msg_error message) as [e|].
  - rewrite settle_settled; [by apply settle_pending|].
    rewrite settle_pending by done. discriminate.
  - by apply settle_pending.
  - by apply settle_pending.
  - done.
Qed.

(** A Response writes to the heap at most, at the promise registered
    under its id. *)
Lemma response_step message id s :
  msg_method message = None → msg_id message = Some id →
  handle (SocketMessage message) s =
    set_heap (match resolvables s !! id with
              | Some p => deliver message p (heap s)
              | None => heap s
              end) s.
Proof.
  intros Hm%response_not_finished Hid. cbn [handle].
  destruct (resolvables s !! id) as [p|] eqn:Hp.
  - by rewrite (onmessage_known _ id p).
  - rewrite (onmessage_unknown _ id) by done. cbn.
    by rewrite set_heap_same.
Qed.

Lemma run_cons (ev : Event R E) evs s :
  run (ev :: evs) s = if enabled ev s then run evs (handle ev s) else None.
Proof. reflexivity. Qed.

Lemma responses_run (ms : list (Message R E)) s s' :
  wf s →
  Forall is_response ms →
  NoDup (msg_id <$> ms) →
  run (SocketMessage <$> ms) s = Some s' →
  (∃ h, s' = set_heap h s) ∧
  (∀ message id p,
     message ∈ ms → msg_id message = Some id →
     resolvables s !! id = Some p → heap s !! p = Some Pending →
     heap s' !! p = Some (settled_by message)) ∧
  (∀ q, (∀ message id, message ∈ ms → msg_id message = Some id →
                       resolvables s !! id ≠ Some q) →
        heap s' !! q = heap s !! q).
Proof.
  intros Hwf Hresp. revert s Hwf.
  induction Hresp as [|message ms [Hm [id Hid]] Hresp IH];
    intros s Hwf Hnd Hrun.
  { injection Hrun as <-. split; [|split].
    - exists (heap s). by rewrite set_heap_same.
    - intros ? ? ? []%elem_of_nil.
    - done. }
  rewrite fmap_cons, run_cons in Hrun.
  destruct (enabled (SocketMessage message) s) eqn:Hen; [|done].
  rewrite fmap_cons in Hnd. apply NoDup_cons in Hnd as [Hfresh Hnd].
  assert (wf (handle (SocketMessage message) s)) as Hwf1
    by (apply wf_handle; done).
  rewrite (response_step _ id) in Hrun, Hwf1 by done.
  set (h1 := match resolvables s !! id with
             | Some p => deliver message p (heap s)
             | None => heap s
             end) in *.
  destruct (IH _ Hwf1 Hnd Hrun) as ((h & ->) & Hhit & Hmiss).
  cbn in Hhit, Hmiss.
  assert (∀ message' id' p, message' ∈ ms → msg_id message' = Some id' →
            resolvables s !! id = Some p → resolvables s !! id' ≠ Some p)
    as Hother.
  { intros message' id' p Hin Hid' Hp Hp'.
    assert (id' = id) as -> by (eapply (wf_slots_inj _ Hwf); done).
    apply Hfresh. rewrite Hid, <- Hid', list_elem_of_fmap. eauto. }
  split; [|split].
  - exists h. by destruct s.
  - intros message' id' p [->|Hin]%elem_of_cons Hid' Hp Hpend; cbn.
    + assert (id' = id) as -> by congruence.
      rewrite Hmiss by (intros m0 i0 Hin0 Hid0; by eapply Hother).
      unfold h1. rewrite Hp. by apply deliver_pending.
    + apply Hhit with id'; try done. unfold h1.
      destruct (resolvables s !! id) as [p0|] eqn:Hp0; [|done].
      rewrite deliver_other; [done|].
      intros Heq. subst p0. by eapply (Hother message' id' p).
  - intros q Hq. cbn.
    rewrite Hmiss by (intros ????; eapply Hq; [by right|done]).
    unfold h1. destruct (resolvables s !! id) as [p0|] eqn:Hp0; [|done].
    apply deliver_other. intros ->. eapply Hq; [by left|done..].
Qed.

Lemma responses_unknown (ms : list (Message R E)) s s' :
  Forall is_response ms →
  (∀ message id, message ∈ ms → msg_id message = Some id →
                 resolvables s !! id = None) →
  run (SocketMessage <$> ms) s = Some s' →
  s' = s.
Proof.
  intros Hresp. revert s.
  induction Hresp as [|message ms [Hm [id Hid]] Hresp IH];
    intros s Hunk Hrun.
  { cbn in Hrun. congruence. }
  rewrite fmap_cons, run_cons in Hrun.
  destruct (enabled (SocketMessage message) s); [|done].
  rewrite (response_step _ id) in Hrun by done.
  rewrite (Hunk message id) in Hrun by (done || by left).
  rewrite set_heap_same in Hrun.
  apply IH; [|done]. intros ????. eapply Hunk; [by right|done].
Qed.

End Responses.

(** C2: let a session reached by any run receive Response frames with
    pairwise distinct ids, in any order. No delivery throws. For each
    frame whose id has a registered slot that is still pending, the slot
    ends up resolved with the frame's [result] when the frame has one,
    and rejected with the frame's [error] when it has that instead (a
    frame carries one of the two; [resolve] is called first). A slot
    that no frame addresses is left as it was, and nothing but the
    promises is written. If no frame has a registered id, the session
    after the deliveries is the session before them. *)
Theorem responses_settle_their_own_slots {R E : Type}
    (evs : list (Event R E)) (s : HeadlessBrowser R E)
    (ms : list (Message R E)) (s' : HeadlessBrowser R E) :
  run evs init = Some s →
  Forall is_response ms →
  NoDup (msg_id <$> ms) →
  run (SocketMessage <$> ms) s = Some s' →
  (∀ message (s0 : HeadlessBrowser R E), (onmessage message s0).1 = Ok tt) ∧
  (∀ message id p,
     message ∈ ms → msg_id message = Some id →
     resolvables s !! id = Some p → heap s !! p = Some Pending →
     (∀ r, msg_result message = Some r →
           heap s' !! p = Some (Resolved (Payload r))) ∧
     (∀ e, msg_result message = None → msg_error message = Some e →
           heap s' !! p = Some (Rejected e))) ∧
  (∀ q, (∀ message id, message ∈ ms → msg_id message = Some id →
                       resolvables s !! id ≠ Some q) →
        heap s' !! q = heap s !! q) ∧
  (∃ h, s' = set_heap h s) ∧
  ((∀ message id, message ∈ ms → msg_id message = Some id →
                  resolvables s !! id = None) →
   s' = s).
Proof.
  intros Hrun Hresp Hnd Hms.
  pose proof (wf_run _ _ _ wf_init Hrun) as Hwf.
  destruct (responses_run ms s s' Hwf Hresp Hnd Hms) as (Hframe & Hhit & Hmiss).
  split; [apply onmessage_ok|].
  split; [|split; [exact Hmiss|split; [exact Hframe|]]].
  - intros message id p Hin Hid Hp Hpend.
    pose proof (Hhit message id p Hin Hid Hp Hpend) as Hset.
    unfold settled_by in Hset. split.
    + intros r Hr. by rewrite Hr in Hset.
    + intros e Hr He. by rewrite Hr, He in Hset.
  - intros Hunk. by eapply responses_unknown.
Qed.

Lemma responses_settle_their_own_slots_witness :
  let ready : Message string string :=
    mkMessage (Some "Network.loadingFinished"%string) None None None None in
  let evs := [CallStart; EndpointReady "ws://localhost:9292/devtools/page/1";
              SocketOpen; SocketMessage ready;
              CallSend "Runtime.evaluate"
                (Some [("expression"%string, JStr "first")]);
              CallSend "Runtime.evaluate"
                (Some [("expression"%string, JStr "second")])] in
  let ms := [mkMessage None None (Some 3) (Some "for second"%string) None;
             mkMessage None None (Some 2) None (Some "for first"%string)] in
  ∃ s s' : HeadlessBrowser string string,
    run evs init = Some s ∧
    run (SocketMessage <$> ms) s = Some s' ∧
    resolvables s !! 2 = Some 0%nat ∧ resolvables s !! 3 = Some 1%nat ∧
    heap s' !! 0%nat = Some (Rejected "for first"%string) ∧
    heap s' !! 1%nat = Some (Resolved (Payload "for second"%string)).
Proof.
  intros ready evs ms.
  let v := eval vm_compute in (default init (run evs init)) in pose (s := v).
  let v := eval vm_compute in (default init (run (SocketMessage <$> ms) s)) in
    pose (s' := v).
  assert (run evs init = Some s) as Hrun by (vm_compute; reflexivity).
  assert (run (SocketMessage <$> ms) s = Some s') as Hms
    by (vm_compute; reflexivity).
  assert (Forall is_response ms) as Hresp.
  { repeat (constructor; [split; [reflexivity|by eexists]|]).
    constructor. }
  assert (NoDup (msg_id <$> ms)) as Hnd.
  { cbn. apply NoDup_cons_2; [|apply NoDup_singleton].
    intros [=]%list_elem_of_singleton. }
  destruct (responses_settle_their_own_slots evs s ms s'
              Hrun Hresp Hnd Hms) as (_ & Hhit & _).
  exists s, s'. split; [exact Hrun|]. split; [exact Hms|].
  split; [reflexivity|]. split; [reflexivity|]. split.
  - eapply (Hhit (mkMessage None None (Some 2) None (Some "for first"%string))
                 2 0%nat);
      [right; left|reflexivity..].
  - eapply (Hhit (mkMessage None None (Some 3) (Some "for second"%string) None)
                 3 1%nat);
      [left|reflexivity..].
Defined.

(** ** The mapping from request ids to slots only grows *)

Section Registered.

Context {R E : Type}.
Implicit Types s : HeadlessBrowser R E.

(** One turn of the event loop leaves the mapping as it was, or is a
    send on a connected session and adds the entry of the new id. *)
Lemma handle_resolvables ev s :
  resolvables (handle ev s) = resolvables s ∨
  resolvables (handle ev s)
    = <[next_message_id s := length (heap s)]> (resolvables s).
Proof.
  destruct ev; cbn [handle].
  - left. reflexivity.
  - left. unfold start_resume. unfold_m. reflexivity.
  - left. unfold onopen. unfold_m. cbn. destruct (socket s); reflexivity.
  - left. apply onmessage_frame.
  - left. unfold dispatch_close.
    destruct (onclose s) as [o s1] eqn:Hclose. cbn.
    assert (s1 = set_connecting false (set_connected false s)) as ->.
    { unfold onclose in Hclose. unfold_m. cbn in Hclose.
      destruct (Bool.eqb (is_done s) false); congruence. }
    match goal with |- resolvables (foldl _ ?a ?l) = _ =>
      destruct (resolve_listeners_frame l a)
        as (_ & _ & _ & _ & _ & _ & Hr & _) end.
    exact Hr.
  - left. unfold onerror. unfold_m. cbn.
    destruct (Bool.eqb (is_done s) false); reflexivity.
  - destruct (connected s) eqn:Hc.
    + destruct (socket s) as [w|] eqn:Hw.
      * right. rewrite sendWebSocketMessage_connected_eq by eauto.
        reflexivity.
      * left. unfold sendWebSocketMessage. unfold_m. cbn.
        rewrite Hc, Hw. cbn. destruct (connecting s); reflexivity.
    + left. destruct (connecting s) eqn:Hg.
      * by rewrite sendWebSocketMessage_connecting_eq.
      * by rewrite sendWebSocketMessage_idle_eq.
  - left. unfold done. unfold_m. cbn. destruct (socket s); reflexivity.
  - left. reflexivity.
Qed.

Lemma handle_keeps_entry ev s id p :
  wf s → resolvables s !! id = Some p →
  resolvables (handle ev s) !! id = Some p.
Proof.
  intros Hwf Hp. destruct (handle_resolvables ev s) as [->| ->]; [done|].
  rewrite lookup_insert_ne; [done|].
  destruct (wf_slots _ Hwf _ _ Hp). lia.
Qed.

Lemma run_keeps_entry evs s s' id p :
  wf s → run evs s = Some s' →
  resolvables s !! id = Some p → resolvables s' !! id = Some p.
Proof.
  revert s. induction evs as [|ev evs IH]; intros s Hwf; cbn.
  - by intros [= <-].
  - destruct (enabled ev s) eqn:Hen; [|done]. intros Hrun Hp.
    eapply IH; [by apply wf_handle|done|by apply handle_keeps_entry].
Qed.

End Registered.

(** C1, as the code has it: when the Response matching a pending slot
    arrives, the slot is fulfilled (with the success value or the error
    value) and stays in the mapping from request ids to slots, under the
    same id, then and for the rest of the run: the handler leaves the
    mapping as it was and nothing in the class removes an entry, so the
    mapping holds the fulfilled requests along with the pending ones. *)
Theorem fulfilled_slot_stays_registered {R E : Type}
    (evs : list (Event R E)) (s : HeadlessBrowser R E)
    (message : Message R E) (id : Z) (p : nat) :
  run evs init = Some s →
  is_response message → msg_id message = Some id →
  is_Some (msg_result message) ∨ is_Some (msg_error message) →
  resolvables s !! id = Some p → heap s !! p = Some Pending →
  let s' := handle (SocketMessage message) s in
  heap s' !! p = Some (settled_by message) ∧
  settled_by message ≠ Pending ∧
  resolvables s' = resolvables s ∧
  resolvables s' !! id = Some p ∧
  ∀ evs' s'', run evs' s' = Some s'' → resolvables s'' !! id = Some p.
Proof.
  intros Hrun [Hm _] Hid Hpayload Hp Hpend s'.
  pose proof (wf_run _ _ _ wf_init Hrun) as Hwf.
  assert (resolvables s' = resolvables s) as Hsame
    by apply onmessage_frame.
  assert (wf s') as Hwf'.
  { unfold s'. rewrite (response_step _ id) by done.
    eapply (wf_intro_same s); cbn; try done.
    - rewrite Hp, deliver_length. done.
    - apply Hwf. }
  split; [|split; [|split; [done|split]]].
  - unfold s'. rewrite (response_step _ id) by done. cbn. rewrite Hp.
    by apply deliver_pending.
  - unfold settled_by.
    destruct Hpayload as [[r ->]|[e ->]]; [done|].
    by destruct (msg_result message).
  - by rewrite Hsame.
  - intros evs' s'' Hrun'. eapply run_keeps_entry; [done..|].
    by rewrite Hsame.
Qed.

Lemma fulfilled_slot_stays_registered_witness :
  let ready : Message string string :=
    mkMessage (Some "Network.loadingFinished"%string) None None None None in
  let evs := [CallStart; EndpointReady "ws://localhost:9292/devtools/page/1";
              SocketOpen; SocketMessage ready;
              CallSend "Runtime.evaluate"
                (Some [("expression"%string, JStr "1 + 1")])] in
  let response : Message string string :=
    mkMessage None None (Some 2) (Some "2"%string) None in
  ∃ s : HeadlessBrowser string string,
    run evs init = Some s ∧
    heap s !! 0%nat = Some Pending ∧
    heap (handle (SocketMessage response) s) !! 0%nat
      = Some (Resolved (Payload "2"%string)) ∧
    resolvables (handle (SocketMessage response) s) !! 2 = Some 0%nat.
Proof.
  intros ready evs response.
  let v := eval vm_compute in (default init (run evs init)) in pose (s := v).
  assert (run evs init = Some s) as Hrun by (vm_compute; reflexivity).
  destruct (fulfilled_slot_stays_registered evs s response 2 0%nat)
    as (Hheap & _ & _ & Hreg & _).
  - exact Hrun.
  - split; [reflexivity|]. by eexists.
  - reflexivity.
  - left. by eexists.
  - reflexivity.
  - reflexivity.
  - exists s. split; [exact Hrun|]. split; [reflexivity|].
    split; [exact Hheap|exact Hreg].
Defined.

(** C1 as the spec words it fails: after a request was sent and its
    Response has fulfilled the slot, the request id is still a key of
    the mapping, and the slot under it is a fulfilled one. *)
Lemma fulfilled_slot_not_removed :
  let ready : Message string string :=
    mkMessage (Some "Network.loadingFinished"%string) None None None None in
  let response : Message string string :=
    mkMessage None None (Some 2) (Some "2"%string) None in
  let evs := [CallStart; EndpointReady "ws://localhost:9292/devtools/page/1";
              SocketOpen; SocketMessage ready;
              CallSend "Runtime.evaluate"
                (Some [("expression"%string, JStr "1 + 1")]);
              SocketMessage response] in
  ∃ s : HeadlessBrowser string string,
    run evs init = Some s ∧
    resolvables s !! 2 ≠ None ∧
    resolvables s !! 2 = Some 0%nat ∧
    heap s !! 0%nat = Some (Resolved (Payload "2"%string)).
Proof.
  intros ready response evs.
  let v := eval vm_compute in (default init (run evs init)) in exists v.
  split; [vm_compute; reflexivity|].
  split; [vm_compute; discriminate|]. split; vm_compute; reflexivity.
Qed.

(** ** Facts on JavaScript strings *)

Module JsStringFacts.

(** [pat] occurs in [s]. *)
Definition contains (pat s : string) : Prop :=
  ∃ pre post, s = pre +:+ pat +:+ post.

(** [s] is [pre], then [pat], then [post], and [pat] occurs nowhere
    further to the left. *)
Definition first_occurrence (pat s pre post : string) : Prop :=
  s = pre +:+ pat +:+ post ∧
  ∀ pre' post', s = pre' +:+ pat +:+ post' →
                (String.length pre ≤ String.length pre')%nat.

Lemma app_cons (x : ascii) (a b : string) :
  String x a +:+ b = String x (a +:+ b).
Proof. reflexivity. Qed.

Lemma app_empty_l (a : string) : "" +:+ a = a.
Proof. reflexivity. Qed.

Lemma length_app (a b : string) :
  String.length (a +:+ b) = (String.length a + String.length b)%nat.
Proof.
  induction a as [|x a IH]; [reflexivity|].
  rewrite app_cons. simpl. by rewrite IH.
Qed.

Lemma app_assoc (a b c : string) : (a +:+ b) +:+ c = a +:+ (b +:+ c).
Proof.
  induction a as [|x a IH]; [reflexivity|].
  rewrite !app_cons. by rewrite IH.
Qed.

Lemma substring_all (s : string) : substring 0 (String.length s) s = s.
Proof. induction s as [|x s IH]; simpl; [reflexivity|]. by rewrite IH. Qed.

Lemma substring_0_app (a b : string) :
  substring 0 (String.length a) (a +:+ b) = a.
Proof.
  induction a as [|x a IH]; [by destruct b|].
  rewrite app_cons. simpl. by rewrite IH.
Qed.

Lemma substring_skip_app (a b : string) (n m : nat) :
  substring (String.length a + n) m (a +:+ b) = substring n m b.
Proof.
  induction a as [|x a IH]; [reflexivity|].
  rewrite app_cons. simpl. exact IH.
Qed.

(** A piece of [s] of the length that was asked for splits [s] around
    it. *)
Lemma substring_0_split (m : nat) (s : string) :
  s = substring 0 m s +:+ substring m (String.length s - m) s.
Proof.
  revert m. induction s as [|x s IH]; intros m.
  - by destruct m.
  - destruct m as [|m].
    + simpl. rewrite app_empty_l. by rewrite substring_all.
    + simpl. rewrite app_cons. f_equal. apply IH.
Qed.

Lemma substring_split (i m : nat) (s t : string) :
  substring i m s = t → String.length t = m → (0 < m)%nat →
  s = substring 0 i s +:+ t +:+
      substring (i + m) (String.length s - (i + m)) s ∧
  String.length (substring 0 i s) = i.
Proof.
  revert i m t. induction s as [|x s IH]; intros i m t Hsub Hlen Hm.
  - destruct i, m; simpl in Hsub; subst t; simpl in Hlen; lia.
  - destruct i as [|i].
    + split; [|reflexivity]. subst t.
      change (substring 0 0 (String x s)) with ""%string.
      rewrite app_empty_l. apply (substring_0_split m (String x s)).
    + simpl in Hsub. destruct (IH i m t Hsub Hlen Hm) as [Hs Hl].
      split; [|simpl; by rewrite Hl].
      simpl. rewrite app_cons. f_equal. exact Hs.
Qed.

Lemma index_contains (pat s : string) (i : nat) :
  pat ≠ ""%string →
  String.index 0 pat s = Some i →
  s = substring 0 i s +:+ pat +:+
      substring (i + String.length pat)
                (String.length s - (i + String.length pat)) s ∧
  String.length (substring 0 i s) = i.
Proof.
  intros Hne Hidx. apply index_correct1 in Hidx.
  apply substring_split; [done..|].
  destruct pat; [done|cbn; lia].
Qed.

Lemma contains_index (pat pre post : string) :
  pat ≠ ""%string →
  ∃ i, String.index 0 pat (pre +:+ pat +:+ post) = Some i ∧
       (i ≤ String.length pre)%nat.
Proof.
  intros Hne.
  assert (substring (String.length pre) (String.length pat)
            (pre +:+ pat +:+ post) = pat) as Hat.
  { rewrite <- (Nat.add_0_r (String.length pre)), substring_skip_app.
    apply substring_0_app. }
  destruct (String.index 0 pat (pre +:+ pat +:+ post)) as [i|] eqn:Hidx.
  - exists i. split; [reflexivity|].
    destruct (decide (i ≤ String.length pre)%nat) as [|Hgt]; [done|].
    exfalso. eapply (index_correct2 _ _ _ _ Hidx (String.length pre)); [lia..|].
    exact Hat.
  - exfalso. eapply (index_correct3 _ (String.length pre) _ _ Hidx);
      [done|lia|exact Hat].
Qed.

(** [indexOf] finds what occurs, and only that. *)
Lemma indexOf_contains (pat s : string) :
  pat ≠ ""%string →
  (JsString.indexOf s pat >? -1) = true ↔ contains pat s.
Proof.
  intros Hne. unfold JsString.indexOf. split.
  - destruct (String.index 0 pat s) as [i|] eqn:Hidx; [|done]. intros _.
    destruct (index_contains pat s i Hne Hidx) as [Hs _].
    eexists _, _. exact Hs.
  - intros (pre & post & ->).
    destruct (contains_index pat pre post Hne) as (i & -> & _).
    apply Z.gtb_lt. lia.
Qed.

Lemma indexOf_not_contains (pat s : string) :
  pat ≠ ""%string →
  (JsString.indexOf s pat >? -1) = false ↔ ¬ contains pat s.
Proof.
  intros Hne. rewrite <- indexOf_contains by done.
  destruct (JsString.indexOf s pat >? -1); split; congruence.
Qed.

(** [replace] cuts the leftmost occurrence out and puts [rep] there. *)
Lemma replace_first_occurrence (pat rep s pre post : string) :
  pat ≠ ""%string →
  first_occurrence pat s pre post →
  JsString.replace s pat rep = pre +:+ rep +:+ post.
Proof.
  intros Hne [Hs Hmin]. unfold JsString.replace.
  destruct (contains_index pat pre post Hne) as (i & Hidx & Hle).
  rewrite <- Hs in Hidx. rewrite Hidx.
  destruct (index_contains pat s i Hne Hidx) as [Hs' Hlen].
  pose proof (Hmin _ _ Hs') as Hge. rewrite Hlen in Hge.
  assert (i = String.length pre) as -> by lia.
  rewrite Hs at 1 2 3.
  rewrite substring_0_app.
  rewrite !length_app.
  replace (String.length pre + (String.length pat + String.length post)
           - (String.length pre + String.length pat))%nat
    with (String.length post) by lia.
  rewrite substring_skip_app.
  rewrite <- (Nat.add_0_r (String.length pat)), substring_skip_app.
  by rewrite substring_all.
Qed.

Lemma replace_absent (pat rep s : string) :
  pat ≠ ""%string → ¬ contains pat s → JsString.replace s pat rep = s.
Proof.
  intros Hne Hno. unfold JsString.replace.
  destruct (String.index 0 pat s) as [i|] eqn:Hidx; [|reflexivity].
  exfalso. apply Hno.
  destruct (index_contains pat s i Hne Hidx) as [Hs _].
  eexists _, _. exact Hs.
Qed.

(** Where [s] begins with [pat], that occurrence is the leftmost. *)
Lemma replace_prefix (pat rep rest : string) :
  pat ≠ ""%string →
  JsString.replace (pat +:+ rest) pat rep = rep +:+ rest.
Proof.
  intros Hne.
  apply (replace_first_occurrence pat rep (pat +:+ rest) "" rest Hne).
  split; [reflexivity|]. intros; simpl; lia.
Qed.

End JsStringFacts.

(** ** Classifying the result of an evaluation *)

(** Stripping a prefix, as the spec words the treatment of a syntax
    error: [pre] is taken off the front of [s] when [s] begins with it,
    and [s] is left alone otherwise. *)
Definition strip_prefix (pre s : string) : string :=
  if String.prefix pre s
  then substring (String.length pre)
                 (String.length s - String.length pre) s
  else s.

(** C4 as the spec words it fails: the description below contains
    [SyntaxError] but does not begin with it; the code raises a
    SyntaxError whose message has the text [SyntaxError: ] cut out of
    the middle, which is not the description with that prefix
    stripped. *)
Lemma checkForErrorResult_cuts_inner_occurrence :
  let description := "Uncaught SyntaxError: Unexpected end of input"%string in
  let out :=
    mkDOMOutput
      (IsError (mkErrorResult "SyntaxError" description (1, 1) "error" "object"))
      (Some (mkExceptionDetails 3
               (mkExceptionInfo "SyntaxError" description "1" "error" "object")
               1 0 "12" "Uncaught")) in
  (JsString.indexOf description "SyntaxError" >? -1) = true ∧
  (checkForErrorResult (E:=unit) (Payload out) "1 +" init).1
    = Throw (SyntaxError "Uncaught Unexpected end of input: `1 +`") ∧
  (checkForErrorResult (E:=unit) (Payload out) "1 +" init).1
    ≠ Throw (SyntaxError
               (strip_prefix "SyntaxError: " description +:+ ": `" +:+
                "1 +" +:+ "`")).
Proof.
  intros description out. split; [reflexivity|]. split; [reflexivity|].
  vm_compute. discriminate.
Qed.

(** C4, as the code has it: with no exception-detail block nothing is
    raised. With one, the nested description is read. If it contains
    [SyntaxError], a SyntaxError is raised whose message is the
    description with the leftmost occurrence of the text
    [SyntaxError: ] cut out (so with that prefix stripped when the
    description begins with it, and the whole description when the text
    does not occur), followed by a colon and the expression between
    backquotes. Otherwise a generic Error is raised whose message is the
    description as it is, a colon and the expression between double
    quotes. The session is not touched. *)
Theorem checkForErrorResult_classifies {E : Type}
    (out : DOMOutput) (commandSent : string)
    (s : HeadlessBrowser DOMOutput E) :
  match exceptionDetails out with
  | None => checkForErrorResult (Payload out) commandSent s = (Ok tt, s)
  | Some exceptionDetail =>
      let description := exc_description (exception exceptionDetail) in
      (JsStringFacts.contains "SyntaxError" description →
       ∃ message,
         checkForErrorResult (Payload out) commandSent s
           = (Throw (SyntaxError (message +:+ ": `" +:+ commandSent +:+ "`")),
              s) ∧
         (∀ pre post,
            JsStringFacts.first_occurrence "SyntaxError: " description pre post →
            message = pre +:+ post) ∧
         (∀ rest, description = "SyntaxError: " +:+ rest → message = rest) ∧
         (¬ JsStringFacts.contains "SyntaxError: " description →
          message = description)) ∧
      (¬ JsStringFacts.contains "SyntaxError" description →
       checkForErrorResult (Payload out) commandSent s
         = (Throw (Error (description +:+ ": " +:+ JsString.dquote +:+
                          commandSent +:+ JsString.dquote)),
            s))
  end.
Proof.
  unfold checkForErrorResult.
  destruct (exceptionDetails out) as [exceptionDetail|]; [|reflexivity].
  cbv zeta. set (description := exc_description (exception exceptionDetail)).
  split.
  - intros Hin%JsStringFacts.indexOf_contains; [|done]. rewrite Hin.
    exists (JsString.replace description "SyntaxError: " "").
    split; [reflexivity|]. split; [|split].
    + intros pre post Hfirst.
      by rewrite (JsStringFacts.replace_first_occurrence _ _ _ pre post).
    + intros rest ->. by rewrite JsStringFacts.replace_prefix.
    + intros Hno. by apply JsStringFacts.replace_absent.
  - intros Hno%JsStringFacts.indexOf_not_contains; [|done]. rewrite Hno.
    reflexivity.
Qed.

Lemma checkForErrorResult_classifies_witness :
  let description := "SyntaxError: Unexpected identifier"%string in
  let out :=
    mkDOMOutput
      (IsError (mkErrorResult "SyntaxError" description (1, 1) "error" "object"))
      (Some (mkExceptionDetails 3
               (mkExceptionInfo "SyntaxError" description "1" "error" "object")
               1 0 "12" "Uncaught")) in
  JsStringFacts.contains "SyntaxError" description ∧
  checkForErrorResult (E:=unit) (Payload out) "x y" init
    = (Throw (SyntaxError "Unexpected identifier: `x y`"), init).
Proof.
  intros description out.
  assert (JsStringFacts.contains "SyntaxError" description) as Hin.
  { exists ""%string, ": Unexpected identifier"%string. reflexivity. }
  split; [exact Hin|].
  destruct (checkForErrorResult_classifies (E:=unit) out "x y" init)
    as [Hsyntax _].
  destruct (Hsyntax Hin) as (message & Heq & _ & Hprefix & _).
  rewrite Heq. by rewrite (Hprefix "Unexpected identifier"%string).
Defined.

(** ** The facade commands *)

Section FacadeFacts.

Context {E : Type}.
Implicit Types s : HeadlessBrowser DOMOutput E.

(** The session after a frame for [Runtime.evaluate] went out. *)
Definition after_evaluate (command : string) s : HeadlessBrowser DOMOutput E :=
  set_trace
    (trace s ++
     [ASocketSend
        (mkFrame (next_message_id s) "Runtime.evaluate"
           (Some [("expression"%string, JStr command)]))])
    (set_resolvables
       (<[next_message_id s := length (heap s)]> (resolvables s))
       (set_heap (heap s ++ [Pending])
          (set_next_message_id (next_message_id s + 1) s))).

Lemma evaluate_connected command s :
  connected s = true → is_Some (socket s) →
  evaluate command s =
    (Ok (SendWaiting (WaitPending (length (heap s)))),
     after_evaluate command s).
Proof. apply sendWebSocketMessage_connected_eq. Qed.

(** A facade call suspended on its request goes on with the rest of its
    body once the promise is resolved. *)
Lemma resume_resolved {A : Type} (p : nat)
    (k : Value DOMOutput → M DOMOutput E A) (v : Value DOMOutput) s :
  heap s !! p = Some (Resolved v) →
  resume (Awaiting (WaitPending p) k) s =
    match k v s with
    | (Ok a, s') => (Ok (Returned a), s')
    | (Throw e, s') => (Throw e, s')
    end.
Proof.
  intros Hp. unfold resume, send_resume, after_send. unfold_m. cbn.
  rewrite Hp. cbn. destruct (k v s) as [[a|e] s']; reflexivity.
Qed.

Lemma resume_pending {A : Type} (p : nat)
    (k : Value DOMOutput → M DOMOutput E A) s :
  heap s !! p = Some Pending →
  resume (Awaiting (WaitPending p) k) s = (Ok (Awaiting (WaitPending p) k), s).
Proof.
  intros Hp. unfold resume, send_resume, after_send. unfold_m. cbn.
  rewrite Hp. reflexivity.
Qed.


(** [checkForErrorResult] reads the session and never writes it. *)
Lemma checkForErrorResult_state (v : Value DOMOutput) command s :
  (checkForErrorResult v command s).2 = s.
Proof.
  unfold checkForErrorResult. destruct v as [|out]; [reflexivity|].
  destruct (exceptionDetails out); [|reflexivity].
  destruct (_ >? _); reflexivity.
Qed.

Lemma checkForErrorResult_ok (out : DOMOutput) command s :
  exceptionDetails out = None →
  checkForErrorResult (Payload out) command s = (Ok tt, s).
Proof. intros H. unfold checkForErrorResult. by rewrite H. Qed.

Lemma checkForErrorResult_throws (out : DOMOutput) command s :
  is_Some (exceptionDetails out) →
  ∃ e, checkForErrorResult (Payload out) command s = (Throw e, s).
Proof.
  intros [ed H]. unfold checkForErrorResult. rewrite H.
  destruct (_ >? _); eexists; reflexivity.
Qed.

End FacadeFacts.

(** C9: on a connected session, [click(selector)] writes to the socket
    exactly the frame whose id is the current value of the counter,
    whose method is [Runtime.evaluate] and whose params hold the one
    key [expression] with the text [document.querySelector('], the
    selector, [').click()] (for the selector [#login]:
    [document.querySelector('#login').click()]), and is suspended on the
    promise of that request. Once the promise is resolved with a
    response, the response is classified: with no exception details the
    call sleeps 1000 ms (and does nothing else) and returns; with
    exception details it throws what [checkForErrorResult] throws and
    does not sleep. *)
Theorem click_sends_classifies_settles {E : Type}
    (evs : list (Event DOMOutput E)) (s : HeadlessBrowser DOMOutput E)
    (selector : string) :
  run evs init = Some s →
  connected s = true →
  let command := "document.querySelector('" +:+ selector +:+ "').click()" in
  let pending := length (heap s) in
  (selector = "#login"%string →
   command = "document.querySelector('#login').click()"%string) ∧
  ∃ k s',
    click selector s = (Ok (Awaiting (WaitPending pending) k), s') ∧
    trace s' = trace s ++
      [ASocketSend
         (mkFrame (next_message_id s) "Runtime.evaluate"
            (Some [("expression"%string, JStr command)]))] ∧
    resolvables s' !! next_message_id s = Some pending ∧
    heap s' !! pending = Some Pending ∧
    ∀ (out : DOMOutput) (s2 : HeadlessBrowser DOMOutput E),
      heap s2 !! pending = Some (Resolved (Payload out)) →
      (exceptionDetails out = None →
       resume (Awaiting (WaitPending pending) k) s2
         = (Ok (Returned tt), set_trace (trace s2 ++ [ASleep 1000]) s2)) ∧
      (is_Some (exceptionDetails out) →
       ∃ e, checkForErrorResult (Payload out) command s2 = (Throw e, s2) ∧
            resume (Awaiting (WaitPending pending) k) s2 = (Throw e, s2)).
Proof.
  intros Hrun Hc command pending.
  pose proof (wf_run _ _ _ wf_init Hrun) as Hwf.
  pose proof (wf_socket _ Hwf Hc) as Hsock.
  split; [by intros ->|].
  unfold click. fold command. unfold mbind, M_bind, bind.
  rewrite evaluate_connected by done. cbn [after_send].
  eexists _, _. split; [reflexivity|].
  split; [reflexivity|]. split; [apply lookup_insert_eq|].
  split.
  { change (heap (after_evaluate command s)) with (heap s ++ [Pending]).
    rewrite lookup_app_r by done. by rewrite Nat.sub_diag. }
  intros out s2 Hres. rewrite (resume_resolved _ _ _ _ Hres). split.
  - intros Hnone. unfold mbind, M_bind, bind.
    rewrite checkForErrorResult_ok by done. reflexivity.
  - intros Hsome.
    destruct (checkForErrorResult_throws out command s2 Hsome) as [e He].
    exists e. split; [exact He|]. unfold mbind, M_bind, bind.
    rewrite He. reflexivity.
Qed.

Lemma click_sends_classifies_settles_witness :
  let ready : Message DOMOutput unit :=
    mkMessage (Some "Network.loadingFinished"%string) None None None None in
  let evs := [CallStart; EndpointReady "ws://localhost:9292/devtools/page/1";
              SocketOpen; SocketMessage ready] in
  ∃ (s s' : HeadlessBrowser DOMOutput unit) k,
    run evs init = Some s ∧ connected s = true ∧
    click "#login" s = (Ok (Awaiting (WaitPending 0) k), s') ∧
    sent (trace s') =
      [mkFrame 1 "Network.enable" None;
       mkFrame 2 "Runtime.evaluate"
         (Some [("expression"%string,
                 JStr "document.querySelector('#login').click()")])].
Proof.
  intros ready evs.
  let v := eval vm_compute in (default init (run evs init)) in pose (s := v).
  assert (run evs init = Some s) as Hrun by (vm_compute; reflexivity).
  destruct (click_sends_classifies_settles evs s "#login" Hrun eq_refl)
    as (_ & k & s' & Hclick & Htrace & _).
  exists s, s', k. split; [exact Hrun|]. split; [reflexivity|].
  split; [exact Hclick|]. rewrite Htrace. reflexivity.
Defined.

(** C5: on a connected session, [getInputValue(selector)] sends the
    expression [document.querySelector('<selector>').value] for
    evaluation and is suspended on the promise of that request. Once the
    promise is resolved with a response [out]: if the [type] field of
    its result (whichever of the three shapes the result has) is
    ["undefined"], the call returns the string ["undefined"], whatever
    else the response holds, exception details included, without
    classifying and without raising. Otherwise the response is
    classified. With no exception details the call returns the [value]
    field of a success result when that field is there, and the empty
    string when it is not there or the result is of a shape without
    that field; with exception details it throws what
    [checkForErrorResult] throws. The session is not written after the
    send. *)
Theorem getInputValue_returns {E : Type}
    (evs : list (Event DOMOutput E)) (s : HeadlessBrowser DOMOutput E)
    (selector : string) :
  run evs init = Some s →
  connected s = true →
  let command := "document.querySelector('" +:+ selector +:+ "').value" in
  let pending := length (heap s) in
  ∃ k s',
    getInputValue selector s = (Ok (Awaiting (WaitPending pending) k), s') ∧
    trace s' = trace s ++
      [ASocketSend
         (mkFrame (next_message_id s) "Runtime.evaluate"
            (Some [("expression"%string, JStr command)]))] ∧
    ∀ (out : DOMOutput) (s2 : HeadlessBrowser DOMOutput E),
      heap s2 !! pending = Some (Resolved (Payload out)) →
      let discriminator :=
        match result out with
        | IsSuccess r => suc_type r
        | IsError r => err_type r
        | IsUndefined r => und_type r
        end in
      let returns (v : string) :=
        resume (Awaiting (WaitPending pending) k) s2 = (Ok (Returned v), s2) in
      (discriminator = "undefined"%string → returns "undefined"%string) ∧
      (∀ r v, result out = IsSuccess r → suc_type r ≠ "undefined"%string →
              exceptionDetails out = None → value r = Some v → returns v) ∧
      (∀ r, result out = IsSuccess r → suc_type r ≠ "undefined"%string →
            exceptionDetails out = None → value r = None →
            returns ""%string) ∧
      (∀ r, result out = IsError r → err_type r ≠ "undefined"%string →
            exceptionDetails out = None → returns ""%string) ∧
      (∀ r, result out = IsUndefined r → und_type r ≠ "undefined"%string →
            exceptionDetails out = None → returns ""%string) ∧
      (discriminator ≠ "undefined"%string →
       is_Some (exceptionDetails out) →
       ∃ e, checkForErrorResult (Payload out) command s2 = (Throw e, s2) ∧
            resume (Awaiting (WaitPending pending) k) s2 = (Throw e, s2)).
Proof.
  intros Hrun Hc command pending.
  pose proof (wf_run _ _ _ wf_init Hrun) as Hwf.
  pose proof (wf_socket _ Hwf Hc) as Hsock.
  unfold getInputValue. fold command. unfold mbind, M_bind, bind.
  rewrite evaluate_connected by done. cbn [after_send].
  eexists _, _. split; [reflexivity|].
  split; [reflexivity|].
  intros out s2 Hres. rewrite (resume_resolved _ _ _ _ Hres).
  set (discriminator := match result out with
                        | IsSuccess r => suc_type r
                        | IsError r => err_type r
                        | IsUndefined r => und_type r
                        end).
  change (type_of (result out)) with discriminator.
  assert (∀ shape, result out = shape →
            match shape with
            | IsSuccess r => suc_type r
            | IsError r => err_type r
            | IsUndefined r => und_type r
            end ≠ "undefined"%string →
            (discriminator =? "undefined")%string = false) as Hother.
  { intros shape Hshape Hty. apply String.eqb_neq.
    unfold discriminator. by rewrite Hshape. }
  split; [|split; [|split; [|split; [|split]]]].
  - intros ->. reflexivity.
  - intros r v Hr Hty Hnone Hv. rewrite (Hother _ Hr Hty).
    unfold mbind, M_bind, bind.
    rewrite checkForErrorResult_ok by done. unfold ret.
    rewrite Hr. cbn [value_of]. rewrite Hv. unfold JsString.truthy.
    destruct (String.eqb_spec v ""); subst; reflexivity.
  - intros r Hr Hty Hnone Hv. rewrite (Hother _ Hr Hty).
    unfold mbind, M_bind, bind.
    rewrite checkForErrorResult_ok by done. unfold ret.
    rewrite Hr. cbn [value_of]. rewrite Hv. reflexivity.
  - intros r Hr Hty Hnone. rewrite (Hother _ Hr Hty).
    unfold mbind, M_bind, bind.
    rewrite checkForErrorResult_ok by done. unfold ret.
    rewrite Hr. reflexivity.
  - intros r Hr Hty Hnone. rewrite (Hother _ Hr Hty).
    unfold mbind, M_bind, bind.
    rewrite checkForErrorResult_ok by done. unfold ret.
    rewrite Hr. reflexivity.
  - intros Hty%String.eqb_neq Hsome. rewrite Hty.
    destruct (checkForErrorResult_throws out command s2 Hsome) as [e He].
    exists e. split; [exact He|]. unfold mbind, M_bind, bind.
    rewrite He. reflexivity.
Qed.

Lemma getInputValue_returns_witness :
  let ready : Message DOMOutput unit :=
    mkMessage (Some "Network.loadingFinished"%string) None None None None in
  let evs := [CallStart; EndpointReady "ws://localhost:9292/devtools/page/1";
              SocketOpen; SocketMessage ready] in
  let of_div := mkDOMOutput (IsUndefined (mkUndefinedResult "undefined")) None in
  let of_input :=
    mkDOMOutput
      (IsSuccess (mkSuccessResult (Some "Edward"%string) "string" "" "" ""))
      None in
  let of_empty :=
    mkDOMOutput (IsSuccess (mkSuccessResult None "string" "" "" "")) None in
  let response out : Message DOMOutput unit :=
    mkMessage None None (Some 2) (Some out) None in
  ∃ (s s' : HeadlessBrowser DOMOutput unit) k,
    run evs init = Some s ∧ connected s = true ∧
    getInputValue "#name" s = (Ok (Awaiting (WaitPending 0) k), s') ∧
    resume (Awaiting (WaitPending 0) k)
           (handle (SocketMessage (response of_div)) s')
      = (Ok (Returned "undefined"%string),
         handle (SocketMessage (response of_div)) s') ∧
    resume (Awaiting (WaitPending 0) k)
           (handle (SocketMessage (response of_input)) s')
      = (Ok (Returned "Edward"%string),
         handle (SocketMessage (response of_input)) s') ∧
    resume (Awaiting (WaitPending 0) k)
           (handle (SocketMessage (response of_empty)) s')
      = (Ok (Returned ""%string),
         handle (SocketMessage (response of_empty)) s').
Proof.
  intros ready evs of_div of_input of_empty response.
  let v := eval vm_compute in (default init (run evs init)) in pose (s := v).
  assert (run evs init = Some s) as Hrun by (vm_compute; reflexivity).
  destruct (getInputValue_returns evs s "#name" Hrun eq_refl)
    as (k & s' & Hcall & Htrace & Hresume).
  assert (∀ out, heap (handle (SocketMessage (response out)) s') !! 0%nat
                 = Some (Resolved (Payload out))) as Hdelivered.
  { intros out.
    unfold getInputValue, mbind, M_bind, bind in Hcall.
    rewrite evaluate_connected in Hcall by (done || by eexists).
    injection Hcall as _ <-. vm_compute. reflexivity. }
  exists s, s', k. split; [exact Hrun|]. split; [reflexivity|].
  split; [exact Hcall|]. split; [|split].
  - destruct (Hresume of_div _ (Hdelivered of_div)) as (Hundefined & _).
    apply Hundefined. reflexivity.
  - destruct (Hresume of_input _ (Hdelivered of_input)) as (_ & Hvalue & _).
    apply (Hvalue (mkSuccessResult (Some "Edward"%string) "string" "" "" "")
                  "Edward"%string); [reflexivity|discriminate|reflexivity..].
  - destruct (Hresume of_empty _ (Hdelivered of_empty)) as (_ & _ & Hnone & _).
    apply (Hnone (mkSuccessResult None "string" "" "" ""));
      [reflexivity|discriminate|reflexivity..].
Defined.

(** ** Shutdown *)

Section Shutdown.

Context {R E : Type}.
Implicit Types s : HeadlessBrowser R E.

Lemma onclose_eq s :
  onclose s =
    (if is_done s then Ok tt else Throw (Error "Unhandled. todo"),
     set_connecting false (set_connected false s)).
Proof. unfold onclose. unfold_m. cbn. by destruct (is_done s). Qed.

Lemma done_eq s w :
  socket s = Some w →
  done s =
    (Ok (length (heap s)),
     set_trace
       (trace s ++ [ASleep 1000; AMarkDone; AStderrClose; AProcessClose;
                    ASocketAddCloseListener (length (heap s)); ASocketClose])
       (set_socket
          (Some (mkWebSocket (ws_url w)
                   (ws_close_listeners w ++ [length (heap s)])))
          (set_is_done true (set_heap (heap s ++ [Pending]) s)))).
Proof.
  intros Hw. unfold done. unfold_m. cbn. rewrite Hw. cbn.
  rewrite <- !app_assoc. reflexivity.
Qed.

(** Without a socket ([start] has not opened one) [done] throws after it
    has slept, set the flag and closed the subprocess. *)
Lemma done_without_socket s :
  socket s = None →
  ∃ msg s', done s = (Throw (TypeError msg), s') ∧
            trace s' = trace s ++ [ASleep 1000; AMarkDone; AStderrClose;
                                   AProcessClose] ∧
            is_done s' = true.
Proof.
  intros Hw. unfold done. unfold_m. cbn. rewrite Hw. cbn.
  eexists _, _. split; [reflexivity|]. cbn. rewrite <- !app_assoc. done.
Qed.

(** Resolving the [close] listeners resolves each pending one. *)
Lemma resolve_listeners_hit (ps : list nat) (p : nat) s :
  p ∈ ps → heap s !! p = Some Pending →
  heap (foldl (λ acc q, (resolve q Undefined acc).2) s ps) !! p
    = Some (Resolved Undefined).
Proof.
  revert s. induction ps as [|q ps IH]; intros s Hin Hp.
  { by apply elem_of_nil in Hin. }
  cbn [foldl].
  assert (∀ s0 : HeadlessBrowser R E,
            heap s0 !! p = Some (Resolved Undefined) →
            heap (foldl (λ acc q, (resolve q Undefined acc).2) s0 ps) !! p
              = Some (Resolved Undefined)) as Hkeep.
  { clear. induction ps as [|q ps IH]; intros s0 Hp; [done|].
    cbn [foldl]. apply IH. unfold_m. cbn.
    destruct (decide (q = p)) as [->|Hne].
    - rewrite settle_settled; [done|]. rewrite Hp. discriminate.
    - by rewrite settle_other. }
  destruct (decide (q = p)) as [->|Hne].
  - apply Hkeep. unfold_m. cbn. by apply settle_pending.
  - apply IH.
    + apply elem_of_cons in Hin as [->|Hin]; done.
    + unfold_m. cbn. by rewrite settle_other.
Qed.

(** A promise that is not a registered slot is settled by no turn of the
    event loop but the socket's [close]. *)
Lemma handle_keeps_unregistered ev s (p : nat) (d : Deferred R E) :
  ev ≠ SocketClose →
  (∀ id q, resolvables s !! id = Some q → q ≠ p) →
  heap s !! p = Some d →
  heap (handle ev s) !! p = Some d.
Proof.
  intros Hev Hfree Hp. destruct ev; cbn [handle].
  - exact Hp.
  - unfold start_resume. unfold_m. exact Hp.
  - unfold onopen. unfold_m. cbn. by destruct (socket s).
  - destruct (is_loadingFinished message) eqn:Hf.
    { by rewrite onmessage_finished. }
    destruct (msg_id message) as [id|] eqn:Hid.
    2:{ by rewrite onmessage_no_id. }
    destruct (resolvables s !! id) as [q|] eqn:Hq.
    + rewrite (onmessage_known _ id q) by done. cbn.
      rewrite deliver_other; [done|]. by eapply Hfree.
    + by rewrite (onmessage_unknown _ id).
  - done.
  - unfold onerror. unfold_m. cbn. by destruct (Bool.eqb (is_done s) false).
  - destruct (connected s) eqn:Hc.
    + destruct (socket s) as [w|] eqn:Hw.
      * rewrite sendWebSocketMessage_connected_eq by eauto. cbn.
        apply lookup_app_l_Some. done.
      * unfold sendWebSocketMessage. unfold_m. cbn.
        rewrite Hc, Hw. cbn. by destruct (connecting s).
    + destruct (connecting s) eqn:Hg.
      * by rewrite sendWebSocketMessage_connecting_eq.
      * by rewrite sendWebSocketMessage_idle_eq.
  - unfold done. unfold_m. cbn.
    destruct (socket s); cbn; by apply lookup_app_l_Some.
  - exact Hp.
Qed.

Lemma run_keeps_unregistered evs s s' (p : nat) (d : Deferred R E) :
  wf s →
  SocketClose ∉ evs →
  (p < length (heap s))%nat →
  (∀ id q, resolvables s !! id = Some q → q ≠ p) →
  heap s !! p = Some d →
  run evs s = Some s' →
  heap s' !! p = Some d.
Proof.
  revert s. induction evs as [|ev evs IH]; intros s Hwf Hno Hlt Hfree Hp; cbn.
  { by intros [= <-]. }
  destruct (enabled ev s) eqn:Hen; [|done].
  apply not_elem_of_cons in Hno as [Hev Hno].
  pose proof (handle_keeps_unregistered ev s p d (not_eq_sym Hev) Hfree Hp)
    as Hp'.
  apply IH; try done.
  - by apply wf_handle.
  - by eapply lookup_lt_Some.
  - intros id q Hq.
    destruct (handle_resolvables ev s) as [Hr|Hr]; rewrite Hr in Hq.
    + by eapply Hfree.
    + destruct (decide (next_message_id s = id)) as [<-|Hne].
      * rewrite lookup_insert_eq in Hq. injection Hq as <-. lia.
      * rewrite lookup_insert_ne in Hq by done. by eapply Hfree.
Qed.

(** Once set, the shutdown flag stays set. *)
Lemma handle_keeps_done ev s : is_done s = true → is_done (handle ev s) = true.
Proof.
  intros Hd. rewrite <- Hd. destruct ev; cbn [handle].
  - reflexivity.
  - unfold start_resume. unfold_m. reflexivity.
  - unfold onopen. unfold_m. cbn. by destruct (socket s).
  - apply onmessage_frame.
  - unfold dispatch_close. rewrite onclose_eq. cbn [snd fst].
    match goal with |- is_done (foldl _ ?b ?l) = _ =>
      destruct (resolve_listeners_frame l b)
        as (_ & _ & _ & _ & _ & Hdone & _) end.
    exact Hdone.
  - unfold onerror. unfold_m. cbn.
    by destruct (Bool.eqb (is_done s) false).
  - destruct (connected s) eqn:Hc.
    + destruct (socket s) as [w|] eqn:Hw.
      * by rewrite sendWebSocketMessage_connected_eq by eauto.
      * unfold sendWebSocketMessage. unfold_m. cbn.
        rewrite Hc, Hw. cbn. by destruct (connecting s).
    + destruct (connecting s) eqn:Hg.
      * by rewrite sendWebSocketMessage_connecting_eq.
      * by rewrite sendWebSocketMessage_idle_eq.
  - unfold done. unfold_m. cbn. rewrite Hd. by destruct (socket s).
  - reflexivity.
Qed.

Lemma run_keeps_done evs s s' :
  is_done s = true → run evs s = Some s' → is_done s' = true.
Proof.
  revert s. induction evs as [|ev evs IH]; intros s Hd; cbn.
  { by intros [= <-]. }
  destruct (enabled ev s); [|done]. by apply IH, handle_keeps_done.
Qed.

End Shutdown.

(** C8: on a session with a socket, reached by any run, [done()] does,
    in this order and nothing else to its collaborators: the 1000 ms
    busy-wait; the write of the shutdown flag; the close of the
    subprocess's error stream and then of the subprocess; the
    registration, on the socket's [close] event, of a listener that
    resolves a promise made for it; the close of the socket; and then it
    awaits that promise, which is still pending. No later turn of the
    event loop other than the socket's [close] event settles the
    promise; when that event comes, the close handler does not throw
    (the flag is set) and the listener resolves the promise, so the
    caller gets control back. *)
Theorem done_shutdown_order {R E : Type}
    (evs : list (Event R E)) (s : HeadlessBrowser R E) (w : WebSocket) :
  run evs init = Some s →
  socket s = Some w →
  let promise := length (heap s) in
  ∃ s',
    done s = (Ok promise, s') ∧
    trace s' = trace s ++
      [ASleep 1000; AMarkDone; AStderrClose; AProcessClose;
       ASocketAddCloseListener promise; ASocketClose] ∧
    is_done s' = true ∧
    done_returned promise s' = false ∧
    (∀ evs' s'', SocketClose ∉ evs' → run evs' s' = Some s'' →
                 done_returned promise s'' = false ∧ is_done s'' = true) ∧
    (dispatch_close s').1 = Ok tt ∧
    done_returned promise (dispatch_close s').2 = true.
Proof.
  intros Hrun Hw promise.
  pose proof (wf_run _ _ _ wf_init Hrun) as Hwf.
  assert (wf (handle CallDone s)) as Hwf' by (by apply wf_handle).
  cbn [handle] in Hwf'. rewrite (done_eq s w Hw) in *. cbn [snd] in Hwf'.
  eexists. split; [reflexivity|]. split; [reflexivity|].
  split; [reflexivity|].
  assert (∀ h : list (Deferred R E), (h ++ [Pending]) !! length h = Some Pending)
    as Hlast.
  { intros h. rewrite lookup_app_r by done. by rewrite Nat.sub_diag. }
  split; [|split; [|split]].
  - unfold done_returned, promise.
    cbn [heap set_trace set_socket set_is_done set_heap].
    by rewrite Hlast.
  - intros evs' s'' Hno Hrun'. split.
    + unfold done_returned.
      erewrite (run_keeps_unregistered evs' _ s'' promise Pending);
        [done|exact Hwf'|exact Hno|..|exact Hrun'].
      * cbn. rewrite length_app. cbn. unfold promise. lia.
      * cbn. intros id q Hq ->. destruct (wf_slots _ Hwf _ _ Hq).
        unfold promise in *. lia.
      * cbn. apply Hlast.
    + eapply run_keeps_done; [|exact Hrun']. reflexivity.
  - unfold dispatch_close. rewrite onclose_eq. reflexivity.
  - unfold dispatch_close. rewrite onclose_eq. cbn [snd fst].
    unfold done_returned.
    erewrite resolve_listeners_hit; [done| |].
    + cbn. apply elem_of_app. right. by left.
    + cbn. apply Hlast.
Qed.

Lemma done_shutdown_order_witness :
  let ready : Message unit unit :=
    mkMessage (Some "Network.loadingFinished"%string) None None None None in
  let evs := [CallStart; EndpointReady "ws://localhost:9292/devtools/page/1";
              SocketOpen; SocketMessage ready] in
  ∃ s s' : HeadlessBrowser unit unit,
    run evs init = Some s ∧
    done s = (Ok 0%nat, s') ∧
    trace s' = trace s ++
      [ASleep 1000; AMarkDone; AStderrClose; AProcessClose;
       ASocketAddCloseListener 0; ASocketClose] ∧
    done_returned 0 (dispatch_close s').2 = true.
Proof.
  intros ready evs.
  let v := eval vm_compute in (default init (run evs init)) in pose (s := v).
  assert (run evs init = Some s) as Hrun by (vm_compute; reflexivity).
  destruct (done_shutdown_order evs s
              (mkWebSocket "ws://localhost:9292/devtools/page/1" [])
              Hrun eq_refl)
    as (s' & Hdone & Htrace & _ & _ & _ & _ & Hback).
  exists s, s'. split; [exact Hrun|]. split; [exact Hdone|].
  split; [exact Htrace|exact Hback].
Defined.

(** Before [done()] the same event is fatal: the close handler throws. *)
Lemma close_before_done_is_fatal {R E : Type} (s : HeadlessBrowser R E) :
  is_done s = false →
  (dispatch_close s).1 = Throw (Error "Unhandled. todo").
Proof.
  intros Hd. unfold dispatch_close. rewrite onclose_eq, Hd. reflexivity.
Qed.

(** ** A send issued while connecting *)

Section Polling.

Context {R E : Type}.
Implicit Types s : HeadlessBrowser R E.

(** A suspended call of [sendWebSocketMessage] under a schedule: while
    the call is suspended the event loop runs the turns of one slice,
    then the call is looked at again ([send_resume]); and so on, slice
    after slice, until the call returns or throws or the schedule
    ends. [None]: the schedule asks for a turn that cannot happen. *)
Fixpoint drive (slices : list (list (Event R E))) (st : SendState R) s
  : option (Outcome E (SendState R) * HeadlessBrowser R E) :=
  match slices with
  | [] => Some (Ok st, s)
  | evs :: rest =>
      match st with
      | SendReturned _ => Some (Ok st, s)
      | SendWaiting w =>
          match run evs s with
          | None => None
          | Some s1 =>
              match send_resume w s1 with
              | (Ok st', s2) => drive rest st' s2
              | (Throw e, s2) => Some (Throw e, s2)
              end
          end
      end
  end.

(** At the end of each slice the session is still connecting; [s_end]
    is the session after the last one. *)
Fixpoint still_connecting (slices : list (list (Event R E))) s s_end : Prop :=
  match slices with
  | [] => s_end = s
  | evs :: rest =>
      ∃ s1, run evs s = Some s1 ∧
            connected s1 = false ∧ connecting s1 = true ∧
            still_connecting rest s1 s_end
  end.

Lemma drive_app slices1 slices2 (st : SendState R) s :
  drive (slices1 ++ slices2) st s =
    match drive slices1 st s with
    | Some (Ok st', s') => drive slices2 st' s'
    | other => other
    end.
Proof.
  revert st s. induction slices1 as [|evs slices1 IH]; intros st s.
  { reflexivity. }
  cbn [app drive]. destruct st as [v|w].
  { by destruct slices2. }
  destruct (run evs s) as [s1|]; [|reflexivity].
  destruct (send_resume w s1) as [[st'|e] s2]; [apply IH|reflexivity].
Qed.

(** While the session is connecting at each look, the call only waits:
    each look re-enters the method with the same arguments, which asks
    for the same delay again, and writes nothing. *)
Lemma drive_still_connecting slices method params s s_end :
  still_connecting slices s s_end →
  drive slices (SendWaiting (WaitDelay 100 method params)) s
    = Some (Ok (SendWaiting (WaitDelay 100 method params)), s_end).
Proof.
  revert s. induction slices as [|evs slices IH]; intros s; cbn.
  { by intros ->. }
  intros (s1 & -> & Hc & Hg & Hrest).
  rewrite sendWebSocketMessage_connecting_eq by done. by apply IH.
Qed.

End Polling.

(** C7: a call to [sendWebSocketMessage] on a connecting session does
    not throw: it asks for a delay of 100 ms, after which the method is
    entered again with the same [method] and [params]; as long as the
    session is still connecting when the delay is over, the same
    happens again, with nothing written to the session by the call. When
    the [Network.loadingFinished] notification has arrived during a
    delay, the next entry takes the next request id, writes the frame
    with that id and the same [method] and [params] to the socket and
    awaits its promise; and when the response with that id has arrived
    with a result, the call returns that result. *)
Theorem sendWebSocketMessage_while_connecting {R E : Type}
    (method : string) (params : option (list (string * json)))
    (slices : list (list (Event R E)))
    (s s1 : HeadlessBrowser R E) (ready response : Message R E) (r : R) :
  connected s = false → connecting s = true →
  still_connecting slices s s1 →
  is_Some (socket s1) →
  msg_method ready = Some "Network.loadingFinished"%string →
  msg_method response = None →
  msg_id response = Some (next_message_id s1) →
  msg_result response = Some r →
  let waiting := SendWaiting (WaitDelay 100 method params) in
  let frame := mkFrame (next_message_id s1) method params in
  sendWebSocketMessage method params s = (Ok waiting, s) ∧
  (∀ s0 : HeadlessBrowser R E,
     send_resume (WaitDelay 100 method params) s0
       = sendWebSocketMessage method params s0) ∧
  drive slices waiting s = Some (Ok waiting, s1) ∧
  (∃ s2,
     drive (slices ++ [[SocketMessage ready]]) waiting s
       = Some (Ok (SendWaiting (WaitPending (length (heap s1)))), s2) ∧
     connected s2 = true ∧
     trace s2 = trace s1 ++ [ASocketSend frame]) ∧
  (∃ s3,
     drive (slices ++ [[SocketMessage ready]; [SocketMessage response]])
       waiting s
       = Some (Ok (SendReturned (Payload r)), s3) ∧
     trace s3 = trace s1 ++ [ASocketSend frame]).
Proof.
  intros Hc Hg Hstill Hsock Hready Hresp Hid Hres waiting frame.
  subst waiting.
  pose proof (drive_still_connecting slices method params s s1 Hstill)
    as Hdrive.
  apply is_loadingFinished_spec in Hready.
  split; [by apply sendWebSocketMessage_connecting_eq|].
  split; [reflexivity|]. split; [exact Hdrive|].
  assert (run [SocketMessage ready] s1
          = Some (set_connecting false (set_connected true s1))) as Hrun1.
  { cbn. rewrite bool_decide_eq_true_2 by done.
    by rewrite onmessage_finished. }
  set (s1' := set_connecting false (set_connected true s1)) in *.
  assert (send_resume (WaitDelay 100 method params) s1'
          = (Ok (SendWaiting (WaitPending (length (heap s1)))),
             set_trace (trace s1 ++ [ASocketSend frame])
               (set_resolvables
                  (<[next_message_id s1 := length (heap s1)]> (resolvables s1))
                  (set_heap (heap s1 ++ [Pending])
                     (set_next_message_id (next_message_id s1 + 1) s1'))))) as Hsend.
  { cbn [send_resume].
    by rewrite sendWebSocketMessage_connected_eq. }
  split.
  - eexists. rewrite drive_app, Hdrive. cbn [drive].
    rewrite Hrun1, Hsend. split; [reflexivity|]. split; reflexivity.
  - eexists. rewrite drive_app, Hdrive. cbn [drive].
    rewrite Hrun1, Hsend. cbn [run enabled].
    rewrite bool_decide_eq_true_2 by done. cbn [handle].
    rewrite (onmessage_known response (next_message_id s1) (length (heap s1)));
      [|by apply response_not_finished|done|apply lookup_insert_eq].
    cbn [snd]. unfold send_resume. unfold_m. cbn.
    unfold deliver. rewrite Hres.
    assert (∀ h : list (Deferred R E),
              (h ++ [Pending]) !! length h = Some Pending) as Hlast.
    { intros h. rewrite lookup_app_r by done. by rewrite Nat.sub_diag. }
    destruct (msg_error response) as [e|].
    + rewrite settle_settled.
      * rewrite settle_pending by apply Hlast. done.
      * rewrite settle_pending by apply Hlast. discriminate.
    + rewrite settle_pending by apply Hlast. done.
Qed.

Lemma sendWebSocketMessage_while_connecting_witness :
  let ready : Message string unit :=
    mkMessage (Some "Network.loadingFinished"%string) None None None None in
  let response : Message string unit :=
    mkMessage None None (Some 2) (Some "2"%string) None in
  let evs := [CallStart; EndpointReady "ws://localhost:9292/devtools/page/1";
              SocketOpen] in
  let params := Some [("expression"%string, JStr "1 + 1")] in
  ∃ s s3 : HeadlessBrowser string unit,
    run evs init = Some s ∧
    connected s = false ∧ connecting s = true ∧
    drive [[]; []; []; [SocketMessage ready]; [SocketMessage response]]
      (SendWaiting (WaitDelay 100 "Runtime.evaluate" params)) s
      = Some (Ok (SendReturned (Payload "2"%string)), s3) ∧
    sent (trace s3) =
      [mkFrame 1 "Network.enable" None;
       mkFrame 2 "Runtime.evaluate" params].
Proof.
  intros ready response evs params.
  let v := eval vm_compute in (default init (run evs init)) in pose (s := v).
  assert (run evs init = Some s) as Hrun by (vm_compute; reflexivity).
  destruct (sendWebSocketMessage_while_connecting "Runtime.evaluate" params
              [[]; []; []] s s ready response "2"%string)
    as (_ & _ & _ & _ & s3 & Hdrive & Htrace).
  - reflexivity.
  - reflexivity.
  - cbn. eexists. split; [reflexivity|]. split; [reflexivity|].
    split; [reflexivity|].
    eexists. split; [reflexivity|]. split; [reflexivity|].
    split; [reflexivity|].
    eexists. split; [reflexivity|]. split; [reflexivity|].
    split; reflexivity.
  - by eexists.
  - reflexivity.
  - reflexivity.
  - reflexivity.
  - reflexivity.
  - exists s, s3. split; [exact Hrun|]. split; [reflexivity|].
    split; [reflexivity|]. split; [exact Hdrive|].
    rewrite Htrace. reflexivity.
Defined.

(** * The rest of the file: launch, busy-wait, and more on the session *)

(** ** The constructor: choosing the executable *)

Module Launch.

(** What [Deno.statSync] does for a file name: it returns, or throws
    [Deno.errors.NotFound], or throws something else. *)
Inductive Stat : Type :=
  | StatReturns
  | StatNotFound
  | StatThrows (error : string).

(** What the constructor can throw: an error of [statSync] passed along,
    or its own [new Error(message)]. *)
Inductive Thrown : Type :=
  | Passed (error : string)
  | NewError (message : string).

Inductive Checked (A : Type) : Type :=
  | Fine (a : A)
  | Raised (e : Thrown).
Arguments Fine {A} a.
Arguments Raised {A} e.

Definition existsSync (statSync : string → Stat) (filename : string)
  : Checked bool :=
  match statSync filename with
  | StatReturns => Fine true
  | StatNotFound => Fine false
  | StatThrows error => Raised (Passed error)
  end.

Definition darwinPath : string :=
  "/Applications/Google Chrome.app/Contents/MacOS/Google Chrome".
Definition pathOne : string :=
  "C:\Program Files (x86)\Google\Chrome\Application\chrome.exe".
Definition pathTwo : string :=
  "C:\Program Files\Google\Chrome\Application\chrome.exe".
Definition linuxPath : string := "/usr/bin/google-chrome".

(** The [switch] on [Deno.build.os]; no case gives the initial [""]. *)
Definition chromePath (os : string) (statSync : string → Stat)
  : Checked string :=
  if String.eqb os "darwin" then Fine darwinPath
  else if String.eqb os "windows" then
    match existsSync statSync pathOne with
    | Raised e => Raised e
    | Fine true => Fine pathOne
    | Fine false =>
        match existsSync statSync pathTwo with
        | Raised e => Raised e
        | Fine true => Fine pathTwo
        | Fine false =>
            Raised (NewError
              "Cannot find path for chrome in windows. Submit an issue if you encounter this error")
        end
    end
  else if String.eqb os "linux" then Fine linuxPath
  else Fine ""%string.

(** The options handed to [Deno.run]. *)
Record RunOptions : Type := mkRunOptions {
  cmd : list string;
  stderr : string
}.

(** [new HeadlessBrowser(urlToVisit)]: the subprocess that is asked for. *)
Definition constructor (os : string) (statSync : string → Stat)
    (urlToVisit : string) : Checked RunOptions :=
  match chromePath os statSync with
  | Raised e => Raised e
  | Fine path =>
      Fine (mkRunOptions
              [path; "--headless"%string;
               "--remote-debugging-port=9292"%string;
               "--disable-gpu"%string; urlToVisit]
              "piped")
  end.

End Launch.

(** ** The busy-wait *)

Module BusyWait.

(** The bound of the [for] loop, [1e7]. *)
Definition iterations : nat := Z.to_nat 10000000.

(** The loop of [sleep]: [getTime k] is what the [k]-th call of
    [new Date().getTime()] returns ([start] was call 0, the iteration
    with counter [i] makes call [i + 1]). The result is the value of the
    counter when the loop is left. *)
Fixpoint loop (getTime : nat → Z) (start milliseconds : Z)
    (i remaining : nat) : nat :=
  match remaining with
  | O => i
  | S remaining' =>
      if getTime (S i) - start >? milliseconds then i
      else loop getTime start milliseconds (S i) remaining'
  end.

Definition sleep (getTime : nat → Z) (milliseconds : Z) : nat :=
  loop getTime (getTime O) milliseconds O iterations.

End BusyWait.

(** ** [start]: waiting for the endpoint *)

Module Endpoint.

(** One round of the [while (true)] loop of [start]: the [try] block
    throws somewhere ([fetch] fails, the body is not JSON, the list is
    empty), or it reads [json[0]["webSocketDebuggerUrl"]], which may be
    missing. *)
Inductive Round : Type :=
  | Throws
  | Reads (debugUrl : option string).

(** The loop over the rounds that happen: what [debug_url] is set to
    when the loop is left, and how many rounds were used; [None] while
    every round so far has thrown. *)
Fixpoint poll (rounds : list Round) : option (option string * nat) :=
  match rounds with
  | [] => None
  | Throws :: rest =>
      match poll rest with
      | Some (url, n) => Some (url, S n)
      | None => None
      end
  | Reads debugUrl :: _ => Some (debugUrl, 1%nat)
  end.

End Endpoint.

(** ** Properties of the launch *)

(** X2: on Windows the path under [Program Files (x86)] wins whenever
    [statSync] returns for it, whatever holds for the other path; the
    path under [Program Files] is used only when the first is not found
    and the second is there; when neither is found the constructor
    throws its own error and asks for no subprocess. Whenever a
    subprocess is asked for, its executable is one of the two paths and
    [statSync] returned for it. *)
Theorem constructor_windows_choice
    (statSync : string → Launch.Stat) (urlToVisit : string) :
  let run path :=
    Launch.Fine
      (Launch.mkRunOptions
         [path; "--headless"%string; "--remote-debugging-port=9292"%string;
          "--disable-gpu"%string; urlToVisit]
         "piped") in
  (statSync Launch.pathOne = Launch.StatReturns →
   Launch.constructor "windows" statSync urlToVisit = run Launch.pathOne) ∧
  (statSync Launch.pathOne = Launch.StatNotFound →
   statSync Launch.pathTwo = Launch.StatReturns →
   Launch.constructor "windows" statSync urlToVisit = run Launch.pathTwo) ∧
  (statSync Launch.pathOne = Launch.StatNotFound →
   statSync Launch.pathTwo = Launch.StatNotFound →
   ∃ message,
     Launch.constructor "windows" statSync urlToVisit
       = Launch.Raised (Launch.NewError message)) ∧
  (∀ options,
     Launch.constructor "windows" statSync urlToVisit = Launch.Fine options →
     ∃ path, run path = Launch.Fine options ∧
             (path = Launch.pathOne ∨ path = Launch.pathTwo) ∧
             statSync path = Launch.StatReturns).
Proof.
  intros run. unfold Launch.constructor, Launch.chromePath, Launch.existsSync.
  cbn [String.eqb Ascii.eqb Bool.eqb].
  split; [|split; [|split]].
  - intros ->. reflexivity.
  - intros -> ->. reflexivity.
  - intros -> ->. eexists. reflexivity.
  - intros options.
    destruct (statSync Launch.pathOne) eqn:H1.
    + intros [= <-]. exists Launch.pathOne. auto.
    + destruct (statSync Launch.pathTwo) eqn:H2; try discriminate.
      intros [= <-]. exists Launch.pathTwo. auto.
    + discriminate.
Qed.

Lemma constructor_windows_choice_witness :
  let statSync (filename : string) :=
    if String.eqb filename Launch.pathTwo
    then Launch.StatReturns else Launch.StatNotFound in
  ∃ options,
    Launch.constructor "windows" statSync "https://chromestatus.com"
      = Launch.Fine options ∧
    Launch.cmd options =
      ["C:\Program Files\Google\Chrome\Application\chrome.exe"%string;
       "--headless"%string; "--remote-debugging-port=9292"%string;
       "--disable-gpu"%string; "https://chromestatus.com"%string].
Proof.
  intros statSync.
  destruct (constructor_windows_choice statSync "https://chromestatus.com")
    as (_ & Htwo & _).
  eexists. split; [apply Htwo; reflexivity|]. reflexivity.
Defined.

(** X3: on Windows an error of [statSync] other than "not found" leaves
    the constructor as it is thrown: for the first path, without the
    second path being tried even if it is there; for the second path
    when the first was not found. *)
Theorem constructor_windows_passes_errors
    (statSync : string → Launch.Stat) (urlToVisit error : string) :
  (statSync Launch.pathOne = Launch.StatThrows error →
   Launch.constructor "windows" statSync urlToVisit
     = Launch.Raised (Launch.Passed error)) ∧
  (statSync Launch.pathOne = Launch.StatNotFound →
   statSync Launch.pathTwo = Launch.StatThrows error →
   Launch.constructor "windows" statSync urlToVisit
     = Launch.Raised (Launch.Passed error)).
Proof.
  unfold Launch.constructor, Launch.chromePath, Launch.existsSync.
  cbn [String.eqb Ascii.eqb Bool.eqb].
  split; [intros ->|intros -> ->]; reflexivity.
Qed.

Lemma constructor_windows_passes_errors_witness :
  let statSync (filename : string) :=
    if String.eqb filename Launch.pathOne
    then Launch.StatThrows "PermissionDenied" else Launch.StatReturns in
  statSync Launch.pathTwo = Launch.StatReturns ∧
  Launch.constructor "windows" statSync "https://chromestatus.com"
    = Launch.Raised (Launch.Passed "PermissionDenied").
Proof.
  intros statSync. split; [reflexivity|].
  destruct (constructor_windows_passes_errors statSync
              "https://chromestatus.com" "PermissionDenied") as [Hfirst _].
  apply Hfirst. reflexivity.
Defined.

(** ** Properties of the busy-wait *)

Lemma loop_spec (getTime : nat → Z) (start milliseconds : Z)
    (i remaining : nat) :
  let k := BusyWait.loop getTime start milliseconds i remaining in
  (i ≤ k ≤ i + remaining)%nat ∧
  (∀ j, (i ≤ j < k)%nat → getTime (S j) - start ≤ milliseconds) ∧
  ((k < i + remaining)%nat → milliseconds < getTime (S k) - start).
Proof.
  revert i. induction remaining as [|remaining IH]; intros i; cbn.
  { split; [lia|]. split; [intros; lia|lia]. }
  destruct (getTime (S i) - start >? milliseconds) eqn:Hgt.
  - apply Z.gtb_lt in Hgt. split; [lia|]. split; [intros; lia|]. intros _. lia.
  - assert (getTime (S i) - start ≤ milliseconds) as Hle.
    { destruct (Z.gtb_spec (getTime (S i) - start) milliseconds);
        [discriminate|lia]. }
    destruct (IH (S i)) as (Hk & Hbelow & Habove).
    split; [lia|]. split.
    + intros j Hj. destruct (decide (j = i)) as [->|Hne]; [done|].
      apply Hbelow. lia.
    + intros Hlt. apply Habove. lia.
Qed.

(** X4: [sleep(milliseconds)] leaves its loop at the first reading of
    the clock that is more than [milliseconds] after the reading taken
    at the start, all earlier readings being within [milliseconds]; or,
    if none of the first [1e7] readings is, after [1e7] iterations, in
    which case it returns although no reading was past the delay. It
    never makes more than [1e7] iterations. *)
Theorem sleep_leaves_loop (getTime : nat → Z) (milliseconds : Z) :
  let k := BusyWait.sleep getTime milliseconds in
  (k ≤ BusyWait.iterations)%nat ∧
  (∀ j, (j < k)%nat → getTime (S j) - getTime O ≤ milliseconds) ∧
  ((k < BusyWait.iterations)%nat →
   milliseconds < getTime (S k) - getTime O) ∧
  ((∀ j, (j < BusyWait.iterations)%nat →
         getTime (S j) - getTime O ≤ milliseconds) →
   k = BusyWait.iterations).
Proof.
  unfold BusyWait.sleep.
  destruct (loop_spec getTime (getTime O) milliseconds O BusyWait.iterations)
    as (Hk & Hbelow & Habove).
  cbn zeta in *. rewrite Nat.add_0_l in *.
  split; [lia|]. split; [intros j Hj; apply Hbelow; lia|].
  split; [exact Habove|].
  intros Hall.
  destruct (decide (BusyWait.loop getTime (getTime 0%nat) milliseconds 0
                      BusyWait.iterations < BusyWait.iterations)%nat)
    as [Hlt|]; [|lia].
  specialize (Habove Hlt). specialize (Hall _ Hlt). lia.
Qed.

Lemma sleep_leaves_loop_witness :
  (∀ j, (j < BusyWait.iterations)%nat → 5 - 5 ≤ 1000) ∧
  BusyWait.sleep (λ _, 5) 1000 = BusyWait.iterations.
Proof.
  split; [intros; lia|].
  apply (sleep_leaves_loop (λ _, 5) 1000). intros; lia.
Defined.

(** ** Properties of the wait for the endpoint *)

(** X5: the loop of [start] swallows every round that throws: after any
    number of them, the first round that reads the list of targets ends
    the loop with what it read, and no later round is made; while every
    round throws the loop goes on. *)
Theorem poll_skips_failures (n : nat) (debugUrl : option string)
    (later : list Endpoint.Round) :
  Endpoint.poll (replicate n Endpoint.Throws ++ Endpoint.Reads debugUrl :: later)
    = Some (debugUrl, S n) ∧
  Endpoint.poll (replicate n Endpoint.Throws) = None.
Proof.
  induction n as [|n [IH1 IH2]]; [split; reflexivity|].
  cbn. rewrite IH1, IH2. split; reflexivity.
Qed.

(** ** More on the session: what one turn of the event loop writes *)

Section Turns.

Context {R E : Type}.
Implicit Types s : HeadlessBrowser R E.

Lemma dispatch_close_eq s :
  dispatch_close s =
    (if is_done s then Ok tt else Throw (Error "Unhandled. todo"),
     foldl (λ acc p, (resolve p Undefined acc).2)
       (set_connecting false (set_connected false s))
       (match socket s with
        | Some w => ws_close_listeners w
        | None => []
        end)).
Proof. unfold dispatch_close. rewrite onclose_eq. reflexivity. Qed.

Lemma onerror_eq s :
  onerror s =
    if is_done s
    then (Ok tt, set_connecting false (set_connected false s))
    else (Throw (Error "Unencountered error"),
          set_trace (trace s ++ [AConsoleError])
            (set_connecting false (set_connected false s))).
Proof. unfold onerror. unfold_m. cbn. by destruct (is_done s). Qed.

(** A turn writes no frame, or writes one frame that carries the current
    value of the counter and moves the counter by one. *)
Lemma handle_sent ev s :
  wf s → enabled ev s = true →
  (next_message_id (handle ev s) = next_message_id s ∧
   sent (trace (handle ev s)) = sent (trace s)) ∨
  (∃ f, frame_id f = next_message_id s ∧
        next_message_id (handle ev s) = next_message_id s + 1 ∧
        sent (trace (handle ev s)) = sent (trace s) ++ [f]).
Proof.
  intros Hwf Hen. destruct ev; cbn [handle enabled] in *;
    try apply bool_decide_eq_true in Hen.
  - left. done.
  - left. unfold start_resume. unfold_m. cbn.
    rewrite !sent_app. cbn. by rewrite !app_nil_r.
  - right. rewrite onopen_eq by done. cbn.
    exists (mkFrame (next_message_id s) "Network.enable" None).
    rewrite sent_app. done.
  - left. destruct (onmessage_frame message s)
      as (_ & _ & Hn & _ & _ & Ht & _).
    split; [exact Hn|exact (f_equal sent Ht)].
  - left. rewrite dispatch_close_eq. cbn [snd].
    match goal with |- context [foldl ?f ?a ?l] =>
      destruct (resolve_listeners_frame l a)
        as (_ & _ & Hn & _ & _ & _ & _ & Ht & _) end.
    split; [exact Hn|exact (f_equal sent Ht)].
  - left. rewrite onerror_eq. destruct (is_done s); cbn; [done|].
    rewrite sent_app. cbn. by rewrite app_nil_r.
  - destruct (connected s) eqn:Hc.
    + right. rewrite sendWebSocketMessage_connected_eq
        by (done || by apply (wf_socket _ Hwf)).
      cbn. exists (mkFrame (next_message_id s) method params).
      rewrite sent_app. done.
    + left. destruct (connecting s) eqn:Hg.
      * by rewrite sendWebSocketMessage_connecting_eq.
      * by rewrite sendWebSocketMessage_idle_eq.
  - left. unfold done. unfold_m. cbn.
    destruct (socket s); cbn; rewrite ?sent_app; cbn;
      by rewrite ?app_nil_r.
  - left. unfold_m. cbn. rewrite sent_app. cbn. by rewrite app_nil_r.
Qed.

(** A promise that is settled is left as it is by every turn. *)
Lemma resolve_listeners_keep (ps : list nat) (p : nat) (d : Deferred R E) s :
  heap s !! p = Some d → (d ≠ Pending ∨ p ∉ ps) →
  heap (foldl (λ acc q, (resolve q Undefined acc).2) s ps) !! p = Some d.
Proof.
  revert s. induction ps as [|q ps IH]; intros s Hp Hd; [done|].
  cbn [foldl]. apply IH.
  - unfold_m. cbn. destruct (decide (q = p)) as [->|Hne].
    + destruct Hd as [Hd|Hd]; [|exfalso; apply Hd; by left].
      rewrite settle_settled; [done|]. rewrite Hp. congruence.
    + by rewrite settle_other.
  - destruct Hd as [Hd|Hd]; [by left|right].
    intros Hin. apply Hd. by right.
Qed.

Lemma deliver_settled message p (d : Deferred R E) (h : list (Deferred R E)) :
  h !! p = Some d → d ≠ Pending → deliver message p h = h.
Proof.
  intros Hp Hd. unfold deliver.
  assert (∀ d', settle p d' h = h) as Hsame.
  { intros d'. apply settle_settled. rewrite Hp. congruence. }
  destruct (msg_result message), (msg_error message);
    rewrite ?Hsame; done.
Qed.

Lemma handle_keeps_settled ev s (p : nat) (d : Deferred R E) :
  heap s !! p = Some d → d ≠ Pending →
  heap (handle ev s) !! p = Some d.
Proof.
  intros Hp Hd. destruct ev; cbn [handle].
  - exact Hp.
  - unfold start_resume. unfold_m. exact Hp.
  - unfold onopen. unfold_m. cbn. by destruct (socket s).
  - destruct (is_loadingFinished message) eqn:Hf.
    { by rewrite onmessage_finished. }
    destruct (msg_id message) as [id|] eqn:Hid.
    2:{ by rewrite onmessage_no_id. }
    destruct (resolvables s !! id) as [q|] eqn:Hq.
    + rewrite (onmessage_known _ id q) by done. cbn.
      destruct (decide (q = p)) as [->|Hne].
      * by rewrite (deliver_settled _ _ d).
      * by rewrite deliver_other.
    + by rewrite (onmessage_unknown _ id).
  - rewrite dispatch_close_eq. cbn [snd].
    apply resolve_listeners_keep; [done|by left].
  - rewrite onerror_eq. by destruct (is_done s).
  - destruct (connected s) eqn:Hc.
    + destruct (socket s) as [w|] eqn:Hw.
      * rewrite sendWebSocketMessage_connected_eq by eauto. cbn.
        by apply lookup_app_l_Some.
      * unfold sendWebSocketMessage. unfold_m. cbn.
        rewrite Hc, Hw. cbn. by destruct (connecting s).
    + destruct (connecting s) eqn:Hg.
      * by rewrite sendWebSocketMessage_connecting_eq.
      * by rewrite sendWebSocketMessage_idle_eq.
  - unfold done. unfold_m. cbn.
    destruct (socket s); cbn; by apply lookup_app_l_Some.
  - exact Hp.
Qed.

End Turns.

(** X6: in every run the frames written to the socket, the handshake
    included, are numbered 1, 2, 3, ... in the order in which they were
    written, and the counter is one more than the number of frames
    written so far. *)
Theorem frames_numbered_from_one {R E : Type}
    (evs : list (Event R E)) (s : HeadlessBrowser R E) :
  run evs init = Some s →
  next_message_id s = Z.of_nat (length (sent (trace s))) + 1 ∧
  ∀ k f, sent (trace s) !! k = Some f → frame_id f = Z.of_nat k + 1.
Proof.
  assert (∀ evs (s0 s : HeadlessBrowser R E),
            wf s0 →
            (next_message_id s0 = Z.of_nat (length (sent (trace s0))) + 1 ∧
             ∀ k f, sent (trace s0) !! k = Some f →
                    frame_id f = Z.of_nat k + 1) →
            run evs s0 = Some s →
            next_message_id s = Z.of_nat (length (sent (trace s))) + 1 ∧
            ∀ k f, sent (trace s) !! k = Some f →
                   frame_id f = Z.of_nat k + 1) as Hgen.
  { clear. intros evs. induction evs as [|ev evs IH];
      intros s0 s Hwf [Hn Hk]; cbn.
    { by intros [= <-]. }
    destruct (enabled ev s0) eqn:Hen; [|done].
    apply IH; [by apply wf_handle|].
    destruct (handle_sent ev s0 Hwf Hen) as [[Hn' Hs']|(f & Hf & Hn' & Hs')];
      rewrite Hn', Hs'.
    - done.
    - rewrite length_app. cbn. split; [lia|].
      intros k f' Hlook.
      destruct (decide (k < length (sent (trace s0)))%nat) as [Hlt|Hge].
      + rewrite lookup_app_l in Hlook by done. by apply Hk.
      + rewrite lookup_app_r in Hlook by lia.
        destruct (k - length (sent (trace s0)))%nat as [|k'] eqn:Hk';
          [|by destruct k'].
        injection Hlook as <-. lia. }
  intros Hrun. apply (Hgen evs init s wf_init); [|done].
  split; [reflexivity|]. intros k f Hlook. done.
Qed.

Lemma frames_numbered_from_one_witness :
  let ready : Message unit unit :=
    mkMessage (Some "Network.loadingFinished"%string) None None None None in
  let evs := [CallStart; EndpointReady "ws://localhost:9292/devtools/page/1";
              SocketOpen; SocketMessage ready;
              CallSend "Runtime.evaluate" None; CallSend "DOM.getDocument" None] in
  ∃ s : HeadlessBrowser unit unit,
    run evs init = Some s ∧ next_message_id s = 4 ∧
    frame_id <$> sent (trace s) = [1; 2; 3].
Proof.
  intros ready evs.
  let v := eval vm_compute in (default init (run evs init)) in pose (s := v).
  assert (run evs init = Some s) as Hrun by (vm_compute; reflexivity).
  destruct (frames_numbered_from_one evs s Hrun) as [Hn Hk].
  exists s. split; [exact Hrun|]. split; [rewrite Hn; reflexivity|].
  reflexivity.
Defined.

Lemma settled_promise_final_aux {R E : Type}
    (evs : list (Event R E)) (s s' : HeadlessBrowser R E)
    (p : nat) (d : Deferred R E) :
  heap s !! p = Some d → d ≠ Pending →
  run evs s = Some s' →
  heap s' !! p = Some d.
Proof.
  revert s. induction evs as [|ev evs IH]; intros s Hp Hd; cbn.
  { by intros [= <-]. }
  destruct (enabled ev s); [|done].
  apply IH; [|done]. by apply handle_keeps_settled.
Qed.

(** X7: a promise that has been resolved or rejected keeps that outcome
    for the rest of the run, whatever arrives later (a second response
    with the same id, an error after a result, the close of the
    socket). *)
Theorem settled_promise_is_final {R E : Type}
    (evs : list (Event R E)) (s s' : HeadlessBrowser R E)
    (p : nat) (d : Deferred R E) :
  heap s !! p = Some d → d ≠ Pending →
  run evs s = Some s' →
  heap s' !! p = Some d.
Proof.
  revert s. induction evs as [|ev evs IH]; intros s Hp Hd; cbn.
  { by intros [= <-]. }
  destruct (enabled ev s); [|done].
  apply IH; [|done]. by apply handle_keeps_settled.
Qed.

Lemma settled_promise_is_final_witness :
  let ready : Message string string :=
    mkMessage (Some "Network.loadingFinished"%string) None None None None in
  let evs := [CallStart; EndpointReady "ws://localhost:9292/devtools/page/1";
              SocketOpen; SocketMessage ready;
              CallSend "Runtime.evaluate" None;
              SocketMessage (mkMessage None None (Some 2) (Some "first"%string) None)] in
  let later := [SocketMessage
                  (mkMessage None None (Some 2) (Some "second"%string) None);
                SocketMessage
                  (mkMessage None None (Some 2) None (Some "failed"%string));
                CallDone; SocketClose] in
  ∃ s s' : HeadlessBrowser string string,
    run evs init = Some s ∧ run later s = Some s' ∧
    heap s !! 0%nat = Some (Resolved (Payload "first"%string)) ∧
    heap s' !! 0%nat = Some (Resolved (Payload "first"%string)).
Proof.
  intros ready evs later.
  let v := eval vm_compute in (default init (run evs init)) in pose (s := v).
  let v := eval vm_compute in (default init (run later s)) in pose (s' := v).
  assert (run later s = Some s') as Hlater by (vm_compute; reflexivity).
  exists s, s'. split; [vm_compute; reflexivity|]. split; [exact Hlater|].
  split; [reflexivity|].
  apply (settled_promise_is_final later s s'); [reflexivity|discriminate|].
  exact Hlater.
Defined.

(** ** Listeners and slots do not share promises *)

Section Listeners.

Context {R E : Type}.
Implicit Types s : HeadlessBrowser R E.

(** The promises resolved by the [close] listeners exist and are not
    registered under any request id. *)
Definition listeners_apart s : Prop :=
  ∀ w q, socket s = Some w → q ∈ ws_close_listeners w →
         (q < length (heap s))%nat ∧
         ∀ id, resolvables s !! id ≠ Some q.

Lemma listeners_apart_init : listeners_apart (@init R E).
Proof. intros w q [=]. Qed.

Lemma heap_length_handle ev s :
  (length (heap s) ≤ length (heap (handle ev s)))%nat.
Proof.
  destruct ev; cbn [handle].
  - done.
  - unfold start_resume. unfold_m. done.
  - unfold onopen. unfold_m. cbn. by destruct (socket s).
  - destruct (onmessage_frame message s) as (_ & _ & _ & _ & _ & _ & Hh).
    apply Nat.eq_le_incl. symmetry. exact Hh.
  - rewrite dispatch_close_eq. cbn [snd].
    match goal with |- context [foldl ?f ?a ?l] =>
      destruct (resolve_listeners_frame l a)
        as (_ & _ & _ & _ & _ & _ & _ & _ & Hh) end.
    apply Nat.eq_le_incl. symmetry. exact Hh.
  - rewrite onerror_eq. by destruct (is_done s).
  - destruct (connected s) eqn:Hc.
    + destruct (socket s) as [w|] eqn:Hw.
      * rewrite sendWebSocketMessage_connected_eq by eauto. cbn.
        rewrite length_app. lia.
      * unfold sendWebSocketMessage. unfold_m. cbn.
        rewrite Hc, Hw. cbn. by destruct (connecting s).
    + destruct (connecting s) eqn:Hg.
      * by rewrite sendWebSocketMessage_connecting_eq.
      * by rewrite sendWebSocketMessage_idle_eq.
  - unfold done. unfold_m. cbn.
    destruct (socket s); cbn; rewrite length_app; lia.
  - done.
Qed.

(** A turn leaves the socket as it was, or is [start] opening a new one
    without listeners, or is [done] adding its fresh promise. *)
Lemma handle_socket ev s :
  socket (handle ev s) = socket s ∨
  (∃ url, socket (handle ev s) = Some (mkWebSocket url [])) ∨
  (∃ w, socket s = Some w ∧
        socket (handle ev s)
          = Some (mkWebSocket (ws_url w)
                    (ws_close_listeners w ++ [length (heap s)])) ∧
        resolvables (handle ev s) = resolvables s ∧
        heap (handle ev s) = heap s ++ [Pending]).
Proof.
  destruct ev; cbn [handle].
  - by left.
  - right; left. unfold start_resume. unfold_m. cbn. eauto.
  - left. destruct (socket s) as [w|] eqn:Hw.
    + rewrite onopen_eq by eauto. exact Hw.
    + unfold onopen. unfold_m. cbn. rewrite Hw. exact Hw.
  - left. apply onmessage_frame.
  - left. rewrite dispatch_close_eq. cbn [snd].
    match goal with |- context [foldl ?f ?a ?l] =>
      destruct (resolve_listeners_frame l a) as (Hs & _) end.
    exact Hs.
  - left. rewrite onerror_eq. by destruct (is_done s).
  - left. destruct (connected s) eqn:Hc.
    + destruct (socket s) as [w|] eqn:Hw.
      * rewrite sendWebSocketMessage_connected_eq by eauto. done.
      * unfold sendWebSocketMessage. unfold_m. cbn.
        rewrite Hc, Hw. cbn. by destruct (connecting s).
    + destruct (connecting s) eqn:Hg.
      * by rewrite sendWebSocketMessage_connecting_eq.
      * by rewrite sendWebSocketMessage_idle_eq.
  - destruct (socket s) as [w|] eqn:Hw.
    + right; right. exists w. rewrite (done_eq s w Hw). done.
    + left. unfold done. unfold_m. cbn. rewrite Hw. cbn. done.
  - by left.
Qed.

Lemma listeners_apart_handle ev s :
  wf s → enabled ev s = true →
  listeners_apart s → listeners_apart (handle ev s).
Proof.
  intros Hwf Hen Hl w q Hw Hq.
  pose proof (heap_length_handle ev s) as Hlen.
  pose proof (wf_handle ev s Hwf Hen) as Hwf'.
  destruct (handle_socket ev s)
    as [Hs|[(url & Hs)|(w0 & Hw0 & Hs & Hr & Hh)]];
    rewrite Hs in Hw.
  - destruct (Hl w q Hw Hq) as [Hlt Hfree]. split; [lia|].
    intros id Hid.
    destruct (handle_resolvables ev s) as [Hr|Hr]; rewrite Hr in Hid.
    + by eapply Hfree.
    + destruct (decide (next_message_id s = id)) as [<-|Hne].
      * rewrite lookup_insert_eq in Hid. injection Hid as <-. lia.
      * rewrite lookup_insert_ne in Hid by done. by eapply Hfree.
  - injection Hw as <-. by apply elem_of_nil in Hq.
  - injection Hw as <-. cbn in Hq. rewrite Hr.
    apply elem_of_app in Hq as [Hq|Hq%list_elem_of_singleton].
    + destruct (Hl w0 q Hw0 Hq) as [Hlt Hfree]. split; [lia|done].
    + subst q. split.
      * rewrite Hh, length_app. cbn. lia.
      * intros id Hid. destruct (wf_slots _ Hwf _ _ Hid). lia.
Qed.

Lemma listeners_apart_run evs s s' :
  wf s → listeners_apart s → run evs s = Some s' → listeners_apart s'.
Proof.
  revert s. induction evs as [|ev evs IH]; intros s Hwf Hl; cbn.
  { by intros [= <-]. }
  destruct (enabled ev s) eqn:Hen; [|done].
  apply IH; [by apply wf_handle|by apply listeners_apart_handle].
Qed.

(** The turns that can settle the slot registered under [id]: a frame
    that is dispatched as a response and carries [id]. *)
Definition delivers_to (id : Z) (ev : Event R E) : Prop :=
  ∃ message, ev = SocketMessage message ∧
             is_loadingFinished message = false ∧
             msg_id message = Some id.

Lemma handle_keeps_pending ev s (id : Z) (p : nat) :
  wf s → listeners_apart s →
  resolvables s !! id = Some p → heap s !! p = Some Pending →
  ¬ delivers_to id ev →
  heap (handle ev s) !! p = Some Pending.
Proof.
  intros Hwf Hl Hid Hp Hno. destruct ev; cbn [handle].
  - exact Hp.
  - unfold start_resume. unfold_m. exact Hp.
  - unfold onopen. unfold_m. cbn. by destruct (socket s).
  - destruct (is_loadingFinished message) eqn:Hf.
    { by rewrite onmessage_finished. }
    destruct (msg_id message) as [id'|] eqn:Hid'.
    2:{ by rewrite onmessage_no_id. }
    destruct (resolvables s !! id') as [q|] eqn:Hq.
    + rewrite (onmessage_known _ id' q) by done. cbn.
      rewrite deliver_other; [done|]. intros ->.
      assert (id' = id) as -> by (by eapply (wf_slots_inj _ Hwf)).
      apply Hno. by exists message.
    + by rewrite (onmessage_unknown _ id').
  - rewrite dispatch_close_eq. cbn [snd].
    apply resolve_listeners_keep; [done|]. right.
    destruct (socket s) as [w|] eqn:Hw; [|by intros ?%elem_of_nil].
    intros Hin. destruct (Hl w p Hw Hin) as [_ Hfree]. by eapply Hfree.
  - rewrite onerror_eq. by destruct (is_done s).
  - destruct (connected s) eqn:Hc.
    + destruct (socket s) as [w|] eqn:Hw.
      * rewrite sendWebSocketMessage_connected_eq by eauto. cbn.
        by apply lookup_app_l_Some.
      * unfold sendWebSocketMessage. unfold_m. cbn.
        rewrite Hc, Hw. cbn. by destruct (connecting s).
    + destruct (connecting s) eqn:Hg.
      * by rewrite sendWebSocketMessage_connecting_eq.
      * by rewrite sendWebSocketMessage_idle_eq.
  - unfold done. unfold_m. cbn.
    destruct (socket s); cbn; by apply lookup_app_l_Some.
  - exact Hp.
Qed.

Lemma run_keeps_pending evs s s' (id : Z) (p : nat) :
  wf s → listeners_apart s →
  resolvables s !! id = Some p → heap s !! p = Some Pending →
  Forall (λ ev, ¬ delivers_to id ev) evs →
  run evs s = Some s' →
  heap s' !! p = Some Pending.
Proof.
  intros Hwf Hl Hid Hp Hno. revert s Hwf Hl Hid Hp.
  induction Hno as [|ev evs Hev Hno IH]; intros s Hwf Hl Hid Hp; cbn.
  { by intros [= <-]. }
  destruct (enabled ev s) eqn:Hen; [|done].
  apply IH.
  - by apply wf_handle.
  - by apply listeners_apart_handle.
  - by apply handle_keeps_entry.
  - by eapply handle_keeps_pending.
Qed.

End Listeners.

(** X8: a request that is pending stays pending through every turn of
    the event loop that is not the delivery of a frame carrying its id:
    other responses, notifications, further sends, socket errors, and
    [done()] with the close of the socket that follows it. There is no
    timeout and shutdown does not settle outstanding requests. *)
Theorem pending_until_own_response {R E : Type}
    (evs evs' : list (Event R E)) (s s' : HeadlessBrowser R E)
    (id : Z) (p : nat) :
  run evs init = Some s →
  resolvables s !! id = Some p → heap s !! p = Some Pending →
  Forall (λ ev, ¬ delivers_to id ev) evs' →
  run evs' s = Some s' →
  heap s' !! p = Some Pending ∧
  send_resume (WaitPending p) s' = (Ok (SendWaiting (WaitPending p)), s').
Proof.
  intros Hrun Hid Hp Hno Hrun'.
  assert (heap s' !! p = Some Pending) as Hp'.
  { eapply run_keeps_pending; try done.
    - by eapply wf_run; [apply wf_init|].
    - by eapply listeners_apart_run;
        [apply wf_init|apply listeners_apart_init|]. }
  split; [exact Hp'|].
  unfold send_resume. unfold_m. cbn. by rewrite Hp'.
Qed.

Lemma pending_until_own_response_witness :
  let ready : Message string string :=
    mkMessage (Some "Network.loadingFinished"%string) None None None None in
  let evs := [CallStart; EndpointReady "ws://localhost:9292/devtools/page/1";
              SocketOpen; SocketMessage ready;
              CallSend "Runtime.evaluate" None] in
  let evs' := [SocketMessage
                 (mkMessage None None (Some 1) (Some "handshake"%string) None);
               SocketMessage
                 (mkMessage (Some "Network.requestWillBeSent"%string)
                    None None None None);
               CallDone; SocketClose] in
  ∃ s s' : HeadlessBrowser string string,
    run evs init = Some s ∧ run evs' s = Some s' ∧
    resolvables s !! 2 = Some 0%nat ∧
    heap s' !! 0%nat = Some Pending ∧
    heap s' !! 1%nat = Some (Resolved Undefined).
Proof.
  intros ready evs evs'.
  let v := eval vm_compute in (default init (run evs init)) in pose (s := v).
  let v := eval vm_compute in (default init (run evs' s)) in pose (s' := v).
  assert (run evs init = Some s) as Hrun by (vm_compute; reflexivity).
  assert (run evs' s = Some s') as Hrun' by (vm_compute; reflexivity).
  exists s, s'. split; [exact Hrun|]. split; [exact Hrun'|].
  split; [reflexivity|]. split; [|reflexivity].
  eapply (pending_until_own_response evs evs' s s' 2 0%nat);
    [exact Hrun|reflexivity|reflexivity| |exact Hrun'].
  repeat constructor; intros (message & [= <-] & Hf & Hid); discriminate.
Defined.

(** ** How [onmessage] dispatches *)

(** X9: a frame whose method is [Network.loadingFinished] makes the
    session connected and not connecting and does nothing else: the
    handler returns before it looks at [id], so such a frame settles no
    slot even if it carries the id of a pending request and a result. A
    frame with any other method is not held back by it: if it carries
    the id of a pending request and a result, the request is resolved
    with the result. A frame with another method, or none, and no id
    leaves the session as it was. *)
Theorem onmessage_dispatch {R E : Type}
    (s : HeadlessBrowser R E) (message : Message R E) :
  (msg_method message = Some "Network.loadingFinished"%string →
   onmessage message s
     = (Ok tt, set_connecting false (set_connected true s))) ∧
  (msg_method message ≠ Some "Network.loadingFinished"%string →
   msg_id message = None →
   onmessage message s = (Ok tt, s)) ∧
  (msg_method message ≠ Some "Network.loadingFinished"%string →
   ∀ id p r,
     msg_id message = Some id → resolvables s !! id = Some p →
     heap s !! p = Some Pending → msg_result message = Some r →
     heap (onmessage message s).2 !! p = Some (Resolved (Payload r))).
Proof.
  split; [|split].
  - intros Hm. apply onmessage_finished. by apply is_loadingFinished_spec.
  - intros Hm Hid. apply onmessage_no_id; [|done].
    destruct (is_loadingFinished message) eqn:Hf; [|done].
    by apply is_loadingFinished_spec in Hf.
  - intros Hm id p r Hid Hp Hpend Hr.
    rewrite (onmessage_known _ id p); try done.
    + cbn. rewrite deliver_pending by done. unfold settled_by.
      by rewrite Hr.
    + destruct (is_loadingFinished message) eqn:Hf; [|done].
      by apply is_loadingFinished_spec in Hf.
Qed.

Lemma onmessage_dispatch_witness :
  let ready : Message string string :=
    mkMessage (Some "Network.loadingFinished"%string) None None None None in
  let evs := [CallStart; EndpointReady "ws://localhost:9292/devtools/page/1";
              SocketOpen; SocketMessage ready;
              CallSend "Runtime.evaluate" None] in
  let odd : Message string string :=
    mkMessage (Some "Network.loadingFinished"%string) None (Some 2)
      (Some "lost"%string) None in
  let tagged : Message string string :=
    mkMessage (Some "Runtime.evaluated"%string) None (Some 2)
      (Some "kept"%string) None in
  ∃ s : HeadlessBrowser string string,
    run evs init = Some s ∧
    resolvables s !! 2 = Some 0%nat ∧ heap s !! 0%nat = Some Pending ∧
    heap (onmessage odd s).2 !! 0%nat = Some Pending ∧
    heap (onmessage tagged s).2 !! 0%nat = Some (Resolved (Payload "kept"%string)).
Proof.
  intros ready evs odd tagged.
  let v := eval vm_compute in (default init (run evs init)) in pose (s := v).
  exists s. split; [vm_compute; reflexivity|].
  split; [reflexivity|]. split; [reflexivity|]. split.
  - destruct (onmessage_dispatch s odd) as (Hodd & _).
    rewrite Hodd by reflexivity. reflexivity.
  - destruct (onmessage_dispatch s tagged) as (_ & _ & Htagged).
    apply (Htagged ltac:(discriminate) 2 0%nat "kept"%string); reflexivity.
Defined.

(** ** The close and error handlers around [done] *)



(** X11: [done()] on a session that has no socket yet ([start] has not
    got as far as opening one) throws a TypeError, after it has slept,
    set the shutdown flag and closed the error stream and the
    subprocess: no listener is registered, nothing is closed on a
    socket, and the caller is not handed a promise to wait for. *)
Theorem done_before_socket {R E : Type} (s : HeadlessBrowser R E) :
  socket s = None →
  ∃ message s',
    done s = (Throw (TypeError message), s') ∧
    trace s' = trace s ++ [ASleep 1000; AMarkDone; AStderrClose; AProcessClose] ∧
    is_done s' = true ∧ socket s' = None ∧
    resolvables s' = resolvables s ∧
    connected s' = connected s ∧ connecting s' = connecting s.
Proof.
  intros Hw. unfold done. unfold_m. cbn. rewrite Hw. cbn.
  eexists _, _. split; [reflexivity|]. cbn. rewrite <- !app_assoc. done.
Qed.

Lemma done_before_socket_witness :
  ∃ message (s' : HeadlessBrowser unit unit),
    done (handle CallStart init) = (Throw (TypeError message), s') ∧
    connecting s' = true ∧ is_done s' = true.
Proof.
  destruct (done_before_socket (handle CallStart (@init unit unit)) eq_refl)
    as (message & s' & Hdone & _ & Hflag & _ & _ & _ & Hg).
  exists message, s'. split; [exact Hdone|]. split; [exact Hg|exact Hflag].
Defined.

(** ** The handshake and the registry *)

(** X13: the handshake registers no slot, so the response to it is
    dropped: after the socket's [open] handler has run, a response that
    carries the id of the handshake frame leaves the session exactly as
    it was. *)
Theorem handshake_response_is_dropped {R E : Type}
    (evs : list (Event R E)) (s : HeadlessBrowser R E)
    (response : Message R E) :
  run evs init = Some s →
  is_Some (socket s) →
  is_response response →
  msg_id response = Some (next_message_id s) →
  let opened := handle SocketOpen s in
  sent (trace opened)
    = sent (trace s) ++ [mkFrame (next_message_id s) "Network.enable" None] ∧
  resolvables opened !! next_message_id s = None ∧
  handle (SocketMessage response) opened = opened.
Proof.
  intros Hrun Hsock [Hm _] Hid opened.
  pose proof (wf_run _ _ _ wf_init Hrun) as Hwf.
  assert (resolvables opened !! next_message_id s = None) as Hnone.
  { unfold opened. cbn [handle]. rewrite onopen_eq by done. cbn.
    destruct (resolvables s !! next_message_id s) as [p|] eqn:Hp; [|done].
    destruct (wf_slots _ Hwf _ _ Hp). lia. }
  split; [|split; [exact Hnone|]].
  - unfold opened. cbn [handle]. rewrite onopen_eq by done. cbn.
    by rewrite sent_app.
  - cbn [handle]. rewrite (onmessage_unknown _ (next_message_id s)); try done.
    by apply response_not_finished.
Qed.

Lemma handshake_response_is_dropped_witness :
  let evs : list (Event string string) :=
    [CallStart; EndpointReady "ws://localhost:9292/devtools/page/1"] in
  let response : Message string string :=
    mkMessage None None (Some 1) (Some "{}"%string) None in
  ∃ s : HeadlessBrowser string string,
    run evs init = Some s ∧
    handle (SocketMessage response) (handle SocketOpen s)
      = handle SocketOpen s.
Proof.
  intros evs response.
  let v := eval vm_compute in (default init (run evs init)) in pose (s := v).
  assert (run evs init = Some s) as Hrun by (vm_compute; reflexivity).
  exists s. split; [exact Hrun|].
  apply (handshake_response_is_dropped evs s response Hrun).
  - by eexists.
  - split; [reflexivity|by eexists].
  - reflexivity.
Defined.

(** X14: in every run, each request id in the mapping is the id of a
    frame that was written to the socket and is smaller than the
    counter, its promise exists, and two different ids never share a
    promise. *)
Theorem registered_ids_were_sent {R E : Type}
    (evs : list (Event R E)) (s : HeadlessBrowser R E) :
  run evs init = Some s →
  (∀ id p, resolvables s !! id = Some p →
           id ∈ sent_ids s ∧ 1 ≤ id < next_message_id s ∧
           is_Some (heap s !! p)) ∧
  (∀ i j p, resolvables s !! i = Some p → resolvables s !! j = Some p →
            i = j).
Proof.
  intros Hrun. pose proof (wf_run _ _ _ wf_init Hrun) as Hwf.
  assert (∀ id p, resolvables s !! id = Some p → id ∈ sent_ids s) as Hsent.
  { clear Hwf. revert Hrun.
    assert (∀ evs (s0 s : HeadlessBrowser R E),
              wf s0 →
              (∀ id p, resolvables s0 !! id = Some p → id ∈ sent_ids s0) →
              run evs s0 = Some s →
              ∀ id p, resolvables s !! id = Some p → id ∈ sent_ids s) as Hgen.
    { clear. intros evs. induction evs as [|ev evs IH];
        intros s0 s Hwf Hin; cbn.
      { by intros [= <-]. }
      destruct (enabled ev s0) eqn:Hen; [|done].
      apply IH; [by apply wf_handle|].
      pose proof (wf_handle ev s0 Hwf Hen) as Hwf'.
      intros id p Hp. unfold sent_ids.
      destruct (handle_sent ev s0 Hwf Hen)
        as [[Hn' Hs']|(f & Hf & Hn' & Hs')]; rewrite Hs'.
      - destruct (handle_resolvables ev s0) as [Hr|Hr]; rewrite Hr in Hp.
        + by eapply Hin.
        + destruct (decide (next_message_id s0 = id)) as [<-|Hne].
          * exfalso.
            assert (resolvables (handle ev s0) !! next_message_id s0
                    = Some (length (heap s0))) as Hnew
              by (rewrite Hr; apply lookup_insert_eq).
            destruct (wf_slots _ Hwf' _ _ Hnew). lia.
          * rewrite lookup_insert_ne in Hp by done. by eapply Hin.
      - rewrite fmap_app. apply elem_of_app.
        destruct (handle_resolvables ev s0) as [Hr|Hr]; rewrite Hr in Hp.
        + left. by eapply Hin.
        + destruct (decide (next_message_id s0 = id)) as [<-|Hne].
          * right. cbn. rewrite Hf. by left.
          * rewrite lookup_insert_ne in Hp by done. left. by eapply Hin. }
    intros Hrun. apply (Hgen evs init s wf_init); [|done].
    intros id p. cbn. by rewrite lookup_empty. }
  split; [|apply Hwf].
  intros id p Hp. split; [by eapply Hsent|].
  destruct (wf_slots _ Hwf _ _ Hp) as [Hlt Hlen].
  split; [|by apply lookup_lt_is_Some].
  split; [|done].
  pose proof (wf_sent_below _ Hwf) as Hbelow.
  rewrite Forall_forall in Hbelow.
  apply (Hbelow id). by eapply Hsent.
Qed.

Lemma registered_ids_were_sent_witness :
  let ready : Message unit unit :=
    mkMessage (Some "Network.loadingFinished"%string) None None None None in
  let evs := [CallStart; EndpointReady "ws://localhost:9292/devtools/page/1";
              SocketOpen; SocketMessage ready;
              CallSend "Runtime.evaluate" None] in
  ∃ s : HeadlessBrowser unit unit,
    run evs init = Some s ∧ resolvables s !! 2 = Some 0%nat ∧
    2 ∈ sent_ids s.
Proof.
  intros ready evs.
  let v := eval vm_compute in (default init (run evs init)) in pose (s := v).
  assert (run evs init = Some s) as Hrun by (vm_compute; reflexivity).
  destruct (registered_ids_were_sent evs s Hrun) as [Hreg _].
  exists s. split; [exact Hrun|]. split; [reflexivity|].
  apply (Hreg 2 0%nat). reflexivity.
Defined.

(** ** The facade on sessions that are not connected, and its other
    commands *)

(** X15: called on a session that is neither connected nor connecting
    (before [start()], or after the socket closed), each facade command
    throws a TypeError: the send returns [undefined] and the command
    reads a property of it. Nothing is written to the socket, no
    request id is used, and [click] and [type] do not sleep: the session
    is left exactly as it was. *)
Theorem facade_on_idle_session {E : Type}
    (s : HeadlessBrowser DOMOutput E) (selector text : string) :
  connected s = false → connecting s = false →
  (∃ message, click selector s = (Throw (TypeError message), s)) ∧
  (∃ message, getInputValue selector s = (Throw (TypeError message), s)) ∧
  (∃ message, type selector text s = (Throw (TypeError message), s)) ∧
  (∃ message, waitForAjax s = (Throw (TypeError message), s)).
Proof.
  intros Hc Hg.
  unfold click, getInputValue, type, waitForAjax, evaluate.
  unfold mbind, M_bind, bind.
  rewrite !sendWebSocketMessage_idle_eq by done.
  repeat split; eexists; reflexivity.
Qed.

Lemma facade_on_idle_session_witness :
  ∃ message,
    click "#login" (@init DOMOutput unit) = (Throw (TypeError message), init).
Proof.
  destruct (facade_on_idle_session (@init DOMOutput unit) "#login" ""
              eq_refl eq_refl) as [Hclick _].
  exact Hclick.
Defined.

(** X16: called on a session that is connecting, a facade command
    writes nothing and throws nothing: it is suspended in the delay of
    its send, to be retried with the method [Runtime.evaluate] and the
    same expression. *)
Theorem facade_on_connecting_session {E : Type}
    (s : HeadlessBrowser DOMOutput E) (selector text : string) :
  connected s = false → connecting s = true →
  let retry expression :=
    WaitDelay 100 "Runtime.evaluate"
      (Some [("expression"%string, JStr expression)]) in
  (∃ k, click selector s
        = (Ok (Awaiting
                 (retry ("document.querySelector('" +:+ selector +:+
                         "').click()")) k), s)) ∧
  (∃ k, getInputValue selector s
        = (Ok (Awaiting
                 (retry ("document.querySelector('" +:+ selector +:+
                         "').value")) k), s)) ∧
  (∃ k, type selector text s
        = (Ok (Awaiting
                 (retry ("document.querySelector('" +:+ selector +:+
                         "').value = " +:+ JsString.dquote +:+ text +:+
                         JsString.dquote)) k), s)) ∧
  (∃ k, waitForAjax s = (Ok (Awaiting (retry "!$.active") k), s)).
Proof.
  intros Hc Hg retry.
  unfold click, getInputValue, type, waitForAjax, evaluate.
  unfold mbind, M_bind, bind.
  rewrite !sendWebSocketMessage_connecting_eq by done.
  repeat split; eexists; reflexivity.
Qed.

Lemma facade_on_connecting_session_witness :
  ∃ k,
    waitForAjax (handle CallStart (@init DOMOutput unit))
    = (Ok (Awaiting
             (WaitDelay 100 "Runtime.evaluate"
                (Some [("expression"%string, JStr "!$.active")])) k),
       handle CallStart init).
Proof.
  destruct (facade_on_connecting_session
              (handle CallStart (@init DOMOutput unit)) "" ""
              eq_refl eq_refl) as (_ & _ & _ & Hwait).
  exact Hwait.
Defined.

(** X17: on a connected session, [type(selector, value)] sends for
    evaluation the assignment of [value], put between double quotes as
    it is (no character of it is escaped), to the [value] property of
    the selected element. When the response has no exception details
    the call sleeps 500 ms and returns; when it has, the call throws
    what [checkForErrorResult] throws and does not sleep. *)
Theorem type_sends_assignment {E : Type}
    (evs : list (Event DOMOutput E)) (s : HeadlessBrowser DOMOutput E)
    (selector text : string) :
  run evs init = Some s →
  connected s = true →
  let command :=
    "document.querySelector('" +:+ selector +:+ "').value = " +:+
    JsString.dquote +:+ text +:+ JsString.dquote in
  let pending := length (heap s) in
  ∃ k s',
    type selector text s = (Ok (Awaiting (WaitPending pending) k), s') ∧
    trace s' = trace s ++
      [ASocketSend
         (mkFrame (next_message_id s) "Runtime.evaluate"
            (Some [("expression"%string, JStr command)]))] ∧
    ∀ (out : DOMOutput) (s2 : HeadlessBrowser DOMOutput E),
      heap s2 !! pending = Some (Resolved (Payload out)) →
      (exceptionDetails out = None →
       resume (Awaiting (WaitPending pending) k) s2
         = (Ok (Returned tt), set_trace (trace s2 ++ [ASleep 500]) s2)) ∧
      (is_Some (exceptionDetails out) →
       ∃ e, checkForErrorResult (Payload out) command s2 = (Throw e, s2) ∧
            resume (Awaiting (WaitPending pending) k) s2 = (Throw e, s2)).
Proof.
  intros Hrun Hc command pending.
  pose proof (wf_run _ _ _ wf_init Hrun) as Hwf.
  pose proof (wf_socket _ Hwf Hc) as Hsock.
  unfold type. fold command. unfold mbind, M_bind, bind.
  rewrite evaluate_connected by done. cbn [after_send].
  eexists _, _. split; [reflexivity|]. split; [reflexivity|].
  intros out s2 Hres. rewrite (resume_resolved _ _ _ _ Hres). split.
  - intros Hnone. unfold mbind, M_bind, bind.
    rewrite checkForErrorResult_ok by done. reflexivity.
  - intros Hsome.
    destruct (checkForErrorResult_throws out command s2 Hsome) as [e He].
    exists e. split; [exact He|]. unfold mbind, M_bind, bind.
    rewrite He. reflexivity.
Qed.

Lemma type_sends_assignment_witness :
  let ready : Message DOMOutput unit :=
    mkMessage (Some "Network.loadingFinished"%string) None None None None in
  let evs := [CallStart; EndpointReady "ws://localhost:9292/devtools/page/1";
              SocketOpen; SocketMessage ready] in
  ∃ (s s' : HeadlessBrowser DOMOutput unit) k,
    run evs init = Some s ∧
    type "input[name=city]" "Stockholm" s
      = (Ok (Awaiting (WaitPending 0) k), s') ∧
    sent (trace s') =
      [mkFrame 1 "Network.enable" None;
       mkFrame 2 "Runtime.evaluate"
         (Some [("expression"%string,
                 JStr ("document.querySelector('input[name=city]').value = "
                       +:+ JsString.dquote +:+ "Stockholm" +:+
                       JsString.dquote))])].
Proof.
  intros ready evs.
  let v := eval vm_compute in (default init (run evs init)) in pose (s := v).
  assert (run evs init = Some s) as Hrun by (vm_compute; reflexivity).
  destruct (type_sends_assignment evs s "input[name=city]" "Stockholm"
              Hrun eq_refl) as (k & s' & Htype & Htrace & _).
  exists s, s', k. split; [exact Hrun|]. split; [exact Htype|].
  rewrite Htrace. reflexivity.
Defined.

(** X18: on a connected session, [waitForAjax()] sends the expression
    [!$.active] for evaluation. When the response has no exception
    details the call returns at once and writes nothing (it does not
    sleep, and it does not look at the value of the result); when it
    has, the call throws what [checkForErrorResult] throws. *)
Theorem waitForAjax_sends_and_classifies {E : Type}
    (evs : list (Event DOMOutput E)) (s : HeadlessBrowser DOMOutput E) :
  run evs init = Some s →
  connected s = true →
  let pending := length (heap s) in
  ∃ k s',
    waitForAjax s = (Ok (Awaiting (WaitPending pending) k), s') ∧
    trace s' = trace s ++
      [ASocketSend
         (mkFrame (next_message_id s) "Runtime.evaluate"
            (Some [("expression"%string, JStr "!$.active")]))] ∧
    ∀ (out : DOMOutput) (s2 : HeadlessBrowser DOMOutput E),
      heap s2 !! pending = Some (Resolved (Payload out)) →
      (exceptionDetails out = None →
       resume (Awaiting (WaitPending pending) k) s2 = (Ok (Returned tt), s2)) ∧
      (is_Some (exceptionDetails out) →
       ∃ e, checkForErrorResult (Payload out) "!$.active" s2 = (Throw e, s2) ∧
            resume (Awaiting (WaitPending pending) k) s2 = (Throw e, s2)).
Proof.
  intros Hrun Hc pending.
  pose proof (wf_run _ _ _ wf_init Hrun) as Hwf.
  pose proof (wf_socket _ Hwf Hc) as Hsock.
  unfold waitForAjax. unfold mbind, M_bind, bind.
  rewrite evaluate_connected by done. cbn [after_send].
  eexists _, _. split; [reflexivity|]. split; [reflexivity|].
  intros out s2 Hres. rewrite (resume_resolved _ _ _ _ Hres). split.
  - intros Hnone. by rewrite checkForErrorResult_ok.
  - intros Hsome.
    destruct (checkForErrorResult_throws out "!$.active" s2 Hsome) as [e He].
    exists e. split; [exact He|]. by rewrite He.
Qed.

Lemma waitForAjax_sends_and_classifies_witness :
  let ready : Message DOMOutput unit :=
    mkMessage (Some "Network.loadingFinished"%string) None None None None in
  let evs := [CallStart; EndpointReady "ws://localhost:9292/devtools/page/1";
              SocketOpen; SocketMessage ready] in
  ∃ (s s' : HeadlessBrowser DOMOutput unit) k,
    run evs init = Some s ∧
    waitForAjax s = (Ok (Awaiting (WaitPending 0) k), s') ∧
    sent (trace s') =
      [mkFrame 1 "Network.enable" None;
       mkFrame 2 "Runtime.evaluate"
         (Some [("expression"%string, JStr "!$.active")])].
Proof.
  intros ready evs.
  let v := eval vm_compute in (default init (run evs init)) in pose (s := v).
  assert (run evs init = Some s) as Hrun by (vm_compute; reflexivity).
  destruct (waitForAjax_sends_and_classifies evs s Hrun eq_refl)
    as (k & s' & Hwait & Htrace & _).
  exists s, s', k. split; [exact Hrun|]. split; [exact Hwait|].
  rewrite Htrace. reflexivity.
Defined.

(** ** A request and its response, with other traffic in between *)

Section RoundTrip.

Context {R E : Type}.
Implicit Types s : HeadlessBrowser R E.

Lemma run_snoc evs (ev : Event R E) s s' :
  run (evs ++ [ev]) s = Some s' →
  ∃ s1, run evs s = Some s1 ∧ enabled ev s1 = true ∧ s' = handle ev s1.
Proof.
  rewrite run_app. destruct (run evs s) as [s1|]; [|done]. cbn.
  destruct (enabled ev s1) eqn:Hen; [|done]. intros [= <-]. by exists s1.
Qed.

(** From a reachable connected session: send, let any turns happen that
    do not deliver a frame with the id of the request, then deliver one.
    The promise of the request then holds what that frame settles it
    with. *)
Lemma request_round_trip evs evs' s s2 method params (message : Message R E) :
  run evs init = Some s →
  connected s = true →
  Forall (λ ev, ¬ delivers_to (next_message_id s) ev) evs' →
  is_loadingFinished message = false →
  msg_id message = Some (next_message_id s) →
  run (evs' ++ [SocketMessage message])
      (handle (CallSend method params) s) = Some s2 →
  heap s2 !! length (heap s) = Some (settled_by message).
Proof.
  intros Hrun Hc Hno Hf Hid Hrun2.
  pose proof (wf_run _ _ _ wf_init Hrun) as Hwf.
  pose proof (listeners_apart_run _ _ _ wf_init listeners_apart_init Hrun)
    as Hl.
  pose proof (wf_socket _ Hwf Hc) as Hsock.
  set (s1 := handle (CallSend method params) s) in *.
  assert (wf s1) as Hwf1 by (by apply wf_handle).
  assert (listeners_apart s1) as Hl1 by (by apply listeners_apart_handle).
  assert (resolvables s1 !! next_message_id s = Some (length (heap s))
          ∧ heap s1 !! length (heap s) = Some Pending) as [Hreg Hpend].
  { unfold s1. cbn [handle].
    rewrite sendWebSocketMessage_connected_eq by done. cbn. split.
    - apply lookup_insert_eq.
    - rewrite lookup_app_r by done. by rewrite Nat.sub_diag. }
  apply run_snoc in Hrun2 as (s1' & Hrun1 & _ & ->).
  pose proof (run_keeps_pending _ _ _ _ _ Hwf1 Hl1 Hreg Hpend Hno Hrun1)
    as Hpend'.
  pose proof (run_keeps_entry _ _ _ _ _ Hwf1 Hrun1 Hreg) as Hreg'.
  cbn [handle].
  rewrite (onmessage_known _ (next_message_id s) (length (heap s))) by done.
  cbn. by apply deliver_pending.
Qed.

End RoundTrip.

(** X19: a request sent on a connected session gets the answer carried
    by the first frame that is delivered with its id, whatever else
    happens in between (responses to other requests, notifications,
    other sends, socket errors, a shutdown): the suspended call returns
    the frame's result if it has one, and throws the frame's error if it
    has that and no result. It keeps doing so however the run goes
    on. *)
Theorem request_answered_by_own_response {R E : Type}
    (evs evs' later : list (Event R E)) (s s2 s3 : HeadlessBrowser R E)
    (method : string) (params : option (list (string * json)))
    (response : Message R E) :
  run evs init = Some s →
  connected s = true →
  Forall (λ ev, ¬ delivers_to (next_message_id s) ev) evs' →
  is_response response →
  msg_id response = Some (next_message_id s) →
  run (evs' ++ [SocketMessage response])
      (handle (CallSend method params) s) = Some s2 →
  run later s2 = Some s3 →
  let pending := length (heap s) in
  (sendWebSocketMessage method params s).1
    = Ok (SendWaiting (WaitPending pending)) ∧
  (∀ r, msg_result response = Some r →
        send_resume (WaitPending pending) s3
          = (Ok (SendReturned (Payload r)), s3)) ∧
  (∀ e, msg_result response = None → msg_error response = Some e →
        send_resume (WaitPending pending) s3 = (Throw (Rejection e), s3)).
Proof.
  intros Hrun Hc Hno [Hm _] Hid Hrun2 Hlater pending.
  pose proof (wf_run _ _ _ wf_init Hrun) as Hwf.
  pose proof (request_round_trip evs evs' s s2 method params response
                Hrun Hc Hno (response_not_finished _ Hm) Hid Hrun2) as Hset.
  fold pending in Hset.
  split.
  { rewrite sendWebSocketMessage_connected_eq
      by (done || by apply (wf_socket _ Hwf)). done. }
  split.
  - intros r Hr. unfold settled_by in Hset. rewrite Hr in Hset.
    pose proof (settled_promise_final_aux later s2 s3 pending _ Hset
                  ltac:(discriminate) Hlater) as Hfinal.
    unfold send_resume. unfold_m. cbn. by rewrite Hfinal.
  - intros e Hr He. unfold settled_by in Hset. rewrite Hr, He in Hset.
    pose proof (settled_promise_final_aux later s2 s3 pending _ Hset
                  ltac:(discriminate) Hlater) as Hfinal.
    unfold send_resume. unfold_m. cbn. by rewrite Hfinal.
Qed.

Lemma request_answered_by_own_response_witness :
  let ready : Message string string :=
    mkMessage (Some "Network.loadingFinished"%string) None None None None in
  let evs := [CallStart; EndpointReady "ws://localhost:9292/devtools/page/1";
              SocketOpen; SocketMessage ready] in
  let evs' := [SocketMessage
                 (mkMessage None None (Some 1) (Some "handshake"%string) None);
               CallSend "DOM.getDocument" None;
               SocketMessage
                 (mkMessage None None (Some 3) (Some "document"%string) None)] in
  let response : Message string string :=
    mkMessage None None (Some 2) (Some "two"%string) None in
  let later := [CallDone; SocketClose] in
  ∃ s s2 s3 : HeadlessBrowser string string,
    run evs init = Some s ∧
    run (evs' ++ [SocketMessage response])
        (handle (CallSend "Runtime.evaluate" None) s) = Some s2 ∧
    run later s2 = Some s3 ∧
    send_resume (WaitPending 0) s3 = (Ok (SendReturned (Payload "two"%string)), s3).
Proof.
  intros ready evs evs' response later.
  let v := eval vm_compute in (default init (run evs init)) in pose (s := v).
  let v := eval vm_compute in
    (default init (run (evs' ++ [SocketMessage response])
                     (handle (CallSend "Runtime.evaluate" None) s)))
  in pose (s2 := v).
  let v := eval vm_compute in (default init (run later s2)) in pose (s3 := v).
  assert (run evs init = Some s) as Hrun by (vm_compute; reflexivity).
  assert (run (evs' ++ [SocketMessage response])
            (handle (CallSend "Runtime.evaluate" None) s) = Some s2) as Hrun2
    by (vm_compute; reflexivity).
  assert (run later s2 = Some s3) as Hlater by (vm_compute; reflexivity).
  exists s, s2, s3. split; [exact Hrun|]. split; [exact Hrun2|].
  split; [exact Hlater|].
  assert (Forall (λ ev, ¬ delivers_to (next_message_id s) ev) evs') as Hno.
  { repeat constructor; intros (message & [= <-] & Hf & Hid); discriminate. }
  assert (is_response response) as Hresp.
  { split; [reflexivity|by eexists]. }
  destruct (request_answered_by_own_response evs evs' later s s2 s3
              "Runtime.evaluate" None response Hrun eq_refl Hno Hresp
              eq_refl Hrun2 Hlater)
    as (_ & Hres & _).
  apply Hres. reflexivity.
Defined.



(** ** The connection state and the shutdown flag along a run *)

Section ConnectionState.

Context {R E : Type}.
Implicit Types s : HeadlessBrowser R E.

(** What a turn does to the pair ([connected], [connecting]), read off
    the kind of the turn alone. *)
Definition connection_step (ev : Event R E) (state : bool * bool)
  : bool * bool :=
  match ev with
  | CallStart => (state.1, true)
  | SocketMessage message =>
      if is_loadingFinished message then (true, false) else state
  | SocketClose | SocketError => (false, false)
  | EndpointReady _ | SocketOpen | CallSend _ _ | CallDone | CallSleep _ =>
      state
  end.

Definition connection_state s : bool * bool := (connected s, connecting s).

Lemma handle_connection_state ev s :
  connection_state (handle ev s)
    = connection_step ev (connection_state s).
Proof.
  unfold connection_state. destruct ev; cbn [handle connection_step fst snd].
  - reflexivity.
  - unfold start_resume. unfold_m. reflexivity.
  - unfold onopen. unfold_m. cbn. by destruct (socket s).
  - destruct (is_loadingFinished message) eqn:Hf.
    { by rewrite onmessage_finished. }
    destruct (msg_id message) as [id|] eqn:Hid.
    2:{ by rewrite onmessage_no_id. }
    destruct (resolvables s !! id) as [p|] eqn:Hp.
    + by rewrite (onmessage_known _ id p).
    + by rewrite (onmessage_unknown _ id).
  - rewrite dispatch_close_eq. cbn [snd].
    match goal with |- context [foldl ?f ?a ?l] =>
      destruct (resolve_listeners_frame l a)
        as (_ & _ & _ & Hc & Hg & _) end.
    apply (f_equal2 pair); [exact Hc|exact Hg].
  - rewrite onerror_eq. by destruct (is_done s).
  - destruct (connected s) eqn:Hc.
    + destruct (socket s) as [w|] eqn:Hw.
      * rewrite sendWebSocketMessage_connected_eq by eauto. cbn.
        by rewrite Hc.
      * unfold sendWebSocketMessage. unfold_m. cbn.
        rewrite Hc, Hw. cbn.
        destruct (connecting s) eqn:Hg; cbn; by rewrite ?Hc, ?Hg.
    + destruct (connecting s) eqn:Hg.
      * rewrite sendWebSocketMessage_connecting_eq by done. cbn.
        by rewrite Hc, Hg.
      * rewrite sendWebSocketMessage_idle_eq by done. cbn.
        by rewrite Hc, Hg.
  - unfold done. unfold_m. cbn. by destruct (socket s).
  - reflexivity.
Qed.

Lemma handle_is_done ev s :
  is_done (handle ev s)
    = match ev with CallDone => true | _ => is_done s end.
Proof.
  destruct ev; cbn [handle].
  - reflexivity.
  - unfold start_resume. unfold_m. reflexivity.
  - destruct (socket s) as [w|] eqn:Hw.
    + by rewrite onopen_eq by eauto.
    + unfold onopen. unfold_m. cbn. by rewrite Hw.
  - apply onmessage_frame.
  - rewrite dispatch_close_eq. cbn [snd].
    match goal with |- context [foldl ?f ?a ?l] =>
      destruct (resolve_listeners_frame l a)
        as (_ & _ & _ & _ & _ & Hd & _) end.
    exact Hd.
  - rewrite onerror_eq. destruct (is_done s) eqn:Hd; cbn; exact Hd.
  - destruct (connected s) eqn:Hc.
    + destruct (socket s) as [w|] eqn:Hw.
      * by rewrite sendWebSocketMessage_connected_eq by eauto.
      * unfold sendWebSocketMessage. unfold_m. cbn.
        rewrite Hc, Hw. cbn. by destruct (connecting s).
    + destruct (connecting s) eqn:Hg.
      * by rewrite sendWebSocketMessage_connecting_eq.
      * by rewrite sendWebSocketMessage_idle_eq.
  - destruct (socket s) as [w|] eqn:Hw.
    + by rewrite (done_eq s w Hw).
    + unfold done. unfold_m. cbn. by rewrite Hw.
  - reflexivity.
Qed.

End ConnectionState.

(** X21: along every run, the pair ([connected], [connecting]) of the
    session is what the kinds of the turns make of it, whatever else
    the session holds: a call of [start] sets [connecting]; a frame with
    the method [Network.loadingFinished] gives (true, false); the close
    or an error of the socket gives (false, false) whether or not the
    handler throws; every other turn (the socket opening, any other
    frame, a send, [done], a sleep) leaves the pair alone. *)
Theorem connection_state_follows_events {R E : Type}
    (evs : list (Event R E)) (s s' : HeadlessBrowser R E) :
  run evs s = Some s' →
  connection_state s'
    = foldl (λ state ev, connection_step ev state) (connection_state s) evs.
Proof.
  revert s. induction evs as [|ev evs IH]; intros s; cbn.
  { by intros [= <-]. }
  destruct (enabled ev s); [|done]. intros Hrun.
  rewrite (IH _ Hrun). by rewrite handle_connection_state.
Qed.

Lemma connection_state_follows_events_witness :
  let ready : Message unit unit :=
    mkMessage (Some "Network.loadingFinished"%string) None None None None in
  let evs := [CallStart; EndpointReady "ws://localhost:9292/devtools/page/1";
              SocketOpen; SocketMessage ready; CallStart] in
  ∃ s' : HeadlessBrowser unit unit,
    run evs init = Some s' ∧ connection_state s' = (true, true).
Proof.
  intros ready evs.
  let v := eval vm_compute in (default init (run evs init)) in pose (s' := v).
  assert (run evs init = Some s') as Hrun by (vm_compute; reflexivity).
  exists s'. split; [exact Hrun|].
  rewrite (connection_state_follows_events evs init s' Hrun). reflexivity.
Defined.

(** X22: in every run the shutdown flag is set exactly when [done()]
    has been called: nothing else sets it and nothing clears it. *)
Theorem is_done_iff_done_called {R E : Type}
    (evs : list (Event R E)) (s : HeadlessBrowser R E) :
  run evs init = Some s →
  is_done s = true ↔ CallDone ∈ evs.
Proof.
  assert (∀ evs (s0 s : HeadlessBrowser R E),
            run evs s0 = Some s →
            is_done s = true ↔ (is_done s0 = true ∨ CallDone ∈ evs)) as Hgen.
  { clear. intros evs. induction evs as [|ev evs IH]; intros s0 s; cbn.
    { intros [= <-]. split; [by left|]. intros [?|?%elem_of_nil]; done. }
    destruct (enabled ev s0); [|done]. intros Hrun.
    rewrite (IH _ _ Hrun), handle_is_done, elem_of_cons.
    destruct ev; try (split; [intros [?|?]; [by left|by right; right]
                             |intros [?|[?|?]]; [by left|done|by right]]).
    split; [intros _; by right; left|intros _; by left]. }
  intros Hrun. rewrite (Hgen _ _ _ Hrun). cbn.
  split; [intros [?|?]; done|by right].
Qed.

Lemma is_done_iff_done_called_witness :
  let evs : list (Event unit unit) :=
    [CallStart; EndpointReady "ws://localhost:9292/devtools/page/1";
     SocketOpen; CallDone; SocketClose] in
  ∃ s : HeadlessBrowser unit unit, run evs init = Some s ∧ is_done s = true.
Proof.
  intros evs.
  let v := eval vm_compute in (default init (run evs init)) in pose (s := v).
  assert (run evs init = Some s) as Hrun by (vm_compute; reflexivity).
  exists s. split; [exact Hrun|].
  apply (is_done_iff_done_called evs s Hrun).
  do 3 right. left.
Defined.
